(** * Work Clicker: progression and reward engine

    A shallow embedding of the game logic of [src/App.tsx] and of the data
    model of [src/types.ts].

    Conventions of the embedding.
    - A JavaScript [number] that holds an amount of money or a time stamp is
      an exact rational ([Q]); an index into an array is an integer ([Z]).
      Rounding of IEEE doubles, [NaN] and the infinities are outside the
      model.
    - [JOBS] is imported by the program from [./constants]; the catalog is a
      parameter of everything below.
    - React state ([useState]) is one record, [AppState]; an event handler
      or a timer callback is a function on it.  Each handler runs against
      the render that follows the previous update, so the value a handler
      reads from its closure ([player]) is the one its updater receives
      ([prev]).
    - An uncaught [TypeError] is the result [None].
    - The [play...Sound] helpers are recorded as the list of calls a handler
      makes; whether a call is audible (the mute flag) is not modelled. *)

From Stdlib Require Import ZArith QArith Qround Qminmax List String Ascii.
From Stdlib Require Import DecimalString Bool Lia Lqa.
Import ListNotations.

Local Open Scope Q_scope.

(** ** Numbers *)

(** [a >= b] and [a > b] on JavaScript numbers. *)
Definition Qge_bool (a b : Q) : bool := Qle_bool b a.
Definition Qgt_bool (a b : Q) : bool := negb (Qle_bool a b).

(** ** Data model ([src/types.ts]) *)

Inductive GameState := START | WORKING | CHOOSE_JOB | END.

Definition GameState_eqb (a b : GameState) : bool :=
  match a, b with
  | START, START | WORKING, WORKING | CHOOSE_JOB, CHOOSE_JOB | END, END => true
  | _, _ => false
  end.

(** [interface Upgrade]; the fields [id] and [name] carry a prefix, the
    optional fields are options. *)
Record Upgrade := mkUpgrade {
  upgradeId : string;
  upgradeName : string;
  cost : Q;
  bonusClick : option Q;
  bonusSec : option Q
}.

Record Job := mkJob {
  jobId : Z;
  jobName : string;
  icon : string;
  baseClick : Q;
  baseSec : Q;
  upgrades : list Upgrade;
  minMoneyToResign : Q
}.

Record PlayerState := mkPlayer {
  money : Q;
  totalMoneyEarned : Q;
  currentJobIndex : Z;
  purchasedUpgrades : list string;
  unlockedJobs : list Z;
  lastSpinTime : Q
}.

(** The literal of the [useState] initializer and of [restartGame]. *)
Definition freshPlayer : PlayerState :=
  {| money := 0; totalMoneyEarned := 0; currentJobIndex := 0%Z;
     purchasedUpgrades := []; unlockedJobs := [0%Z]; lastSpinTime := 0 |}.

(** ** JavaScript arrays *)

(** [arr[i]]: [undefined] outside the array. *)
Definition array_get {A : Type} (arr : list A) (i : Z) : option A :=
  if (i <? 0)%Z then None else nth_error arr (Z.to_nat i).

(** [arr.includes(x)] *)
Definition includes_str (arr : list string) (x : string) : bool :=
  existsb (String.eqb x) arr.

Definition includes_Z (arr : list Z) (x : Z) : bool :=
  existsb (Z.eqb x) arr.

(** [Array.from(new Set(arr))]: the first occurrence of every element, in
    the order of insertion. *)
Definition set_add (seen : list Z) (x : Z) : list Z :=
  if includes_Z seen x then seen else seen ++ [x].

Definition array_from_set (arr : list Z) : list Z :=
  fold_left set_add arr [].

(** ** Progression engine *)

(** [currentJob.upgrades.find(u => u.id === id)] *)
Definition find_upgrade (job : Job) (i : string) : option Upgrade :=
  find (fun u => String.eqb (upgradeId u) i) (upgrades job).

(** One round of the [forEach] body
    [if (upgrade?.bonusX) earnings += upgrade.bonusX]: nothing is added when
    no upgrade is found, when the field is missing and when it is [0]. *)
Definition add_bonus (bonus : Upgrade -> option Q) (job : Job)
    (earnings : Q) (i : string) : Q :=
  match find_upgrade job i with
  | Some u =>
      match bonus u with
      | Some b => if Qeq_bool b 0 then earnings else earnings + b
      | None => earnings
      end
  | None => earnings
  end.

Definition earnings_of (base : Job -> Q) (bonus : Upgrade -> option Q)
    (job : Job) (purchased : list string) : Q :=
  fold_left (add_bonus bonus job) purchased (base job).

Definition clickEarnings : Job -> list string -> Q :=
  earnings_of baseClick bonusClick.

Definition perSecondEarnings : Job -> list string -> Q :=
  earnings_of baseSec bonusSec.

(** [calculateClickEarnings] and [calculateSecEarnings] read [currentJob]
    and [player.purchasedUpgrades] of the render they belong to; reading
    [currentJob.baseClick] of an undefined job throws. *)
Definition calculateClickEarnings (currentJob : option Job)
    (p : PlayerState) : option Q :=
  match currentJob with
  | Some job => Some (clickEarnings job (purchasedUpgrades p))
  | None => None
  end.

Definition calculateSecEarnings (currentJob : option Job)
    (p : PlayerState) : option Q :=
  match currentJob with
  | Some job => Some (perSecondEarnings job (purchasedUpgrades p))
  | None => None
  end.

(** ** Application state *)

(** The [play...Sound] helper a handler calls. *)
Inductive Sound :=
  | ClickSound | PurchaseSound | PromotionSound | ErrorSound | EndSound
  | RouletteWin.

(** The [useState] cells of [App] the game logic reads, and the pending
    [setTimeout] of [handleSpinRoulette]: [spinTimeout] holds the [player]
    of the render whose [calculateClickEarnings] and [calculateSecEarnings]
    the callback closes over. *)
Record AppState := mkApp {
  gameState : GameState;
  player : PlayerState;
  isRouletteOpen : bool;
  isSpinning : bool;
  timeToNextSpin : Q;
  spinTimeout : option PlayerState
}.

Definition setGameState (g : GameState) (s : AppState) : AppState :=
  {| gameState := g; player := player s;
     isRouletteOpen := isRouletteOpen s; isSpinning := isSpinning s;
     timeToNextSpin := timeToNextSpin s; spinTimeout := spinTimeout s |}.

Definition setPlayer (f : PlayerState -> PlayerState) (s : AppState)
  : AppState :=
  {| gameState := gameState s; player := f (player s);
     isRouletteOpen := isRouletteOpen s; isSpinning := isSpinning s;
     timeToNextSpin := timeToNextSpin s; spinTimeout := spinTimeout s |}.

Definition setIsRouletteOpen (b : bool) (s : AppState) : AppState :=
  {| gameState := gameState s; player := player s;
     isRouletteOpen := b; isSpinning := isSpinning s;
     timeToNextSpin := timeToNextSpin s; spinTimeout := spinTimeout s |}.

Definition setTimeToNextSpin (t : Q) (s : AppState) : AppState :=
  {| gameState := gameState s; player := player s;
     isRouletteOpen := isRouletteOpen s; isSpinning := isSpinning s;
     timeToNextSpin := t; spinTimeout := spinTimeout s |}.

(** What a handler leaves behind: the next state and the sounds it asked
    for, or [None] for an uncaught exception. *)
Definition Reaction : Type := option (AppState * list Sound).

Definition ROULETTE_COOLDOWN : Q := 10 * 60 * 1000.

(** [const rewards = [0.1, 0.2, 0.5, 1, 2, 5, 10]] *)
Definition rewards : list Q := [0.1; 0.2; 0.5; 1; 2; 5; 10].

(** The updater [{...prev, money: prev.money + x,
    totalMoneyEarned: prev.totalMoneyEarned + x}] that the click, the
    passive income and the roulette share. *)
Definition credit (amount : Q) (prev : PlayerState) : PlayerState :=
  {| money := money prev + amount;
     totalMoneyEarned := totalMoneyEarned prev + amount;
     currentJobIndex := currentJobIndex prev;
     purchasedUpgrades := purchasedUpgrades prev;
     unlockedJobs := unlockedJobs prev;
     lastSpinTime := lastSpinTime prev |}.

Definition setLastSpinTime (t : Q) (prev : PlayerState) : PlayerState :=
  {| money := money prev;
     totalMoneyEarned := totalMoneyEarned prev;
     currentJobIndex := currentJobIndex prev;
     purchasedUpgrades := purchasedUpgrades prev;
     unlockedJobs := unlockedJobs prev;
     lastSpinTime := t |}.

(** [rewards[Math.floor(Math.random() * rewards.length)]], [rnd] being the
    value [Math.random()] returns. *)
Definition randomReward (rnd : Q) : option Q :=
  array_get rewards (Qfloor (rnd * inject_Z (Z.of_nat (List.length rewards)))).

(** [updateTimer] of the cooldown effect, [now] being [Date.now()]. *)
Definition updateTimer (now : Q) (s : AppState) : AppState :=
  let elapsed := now - lastSpinTime (player s) in
  let remaining := Qmax 0 (ROULETTE_COOLDOWN - elapsed) in
  setTimeToNextSpin remaining s.

(** [buyUpgrade(upgrade)] *)
Definition buyUpgrade (upgrade : Upgrade) (s : AppState)
  : AppState * list Sound :=
  if Qge_bool (money (player s)) (cost upgrade)
     && negb (includes_str (purchasedUpgrades (player s)) (upgradeId upgrade))
  then
    (setPlayer (fun prev =>
       {| money := money prev - cost upgrade;
          totalMoneyEarned := totalMoneyEarned prev;
          currentJobIndex := currentJobIndex prev;
          purchasedUpgrades := purchasedUpgrades prev ++ [upgradeId upgrade];
          unlockedJobs := unlockedJobs prev;
          lastSpinTime := lastSpinTime prev |}) s,
     [PurchaseSound])
  else (s, [ErrorSound]).

(** [resign()] *)
Definition resign (s : AppState) : AppState * list Sound :=
  (setPlayer (fun prev =>
     {| money := money prev;
        totalMoneyEarned := totalMoneyEarned prev;
        currentJobIndex := currentJobIndex prev;
        purchasedUpgrades := [];
        unlockedJobs :=
          array_from_set (unlockedJobs prev ++ [(currentJobIndex prev + 1)%Z]);
        lastSpinTime := lastSpinTime prev |})
     (setGameState CHOOSE_JOB s),
   [PromotionSound]).

(** [startJob(index)] *)
Definition startJob (index : Z) (s : AppState) : AppState * list Sound :=
  (setGameState WORKING
     (setPlayer (fun prev =>
        {| money := money prev;
           totalMoneyEarned := totalMoneyEarned prev;
           currentJobIndex := index;
           purchasedUpgrades := purchasedUpgrades prev;
           unlockedJobs := unlockedJobs prev;
           lastSpinTime := lastSpinTime prev |}) s),
   [PromotionSound]).

(** [restartGame()] *)
Definition restartGame (s : AppState) : AppState :=
  setGameState START (setPlayer (fun _ => freshPlayer) s).

(** [handleSpinRoulette()] up to the [setTimeout]: the gate, the flag and
    the timer.  The wheel's rotation and the ticking sound are cosmetic. *)
Definition handleSpinRoulette (s : AppState) : AppState :=
  if Qgt_bool (timeToNextSpin s) 0 || isSpinning s then s
  else
    {| gameState := gameState s; player := player s;
       isRouletteOpen := isRouletteOpen s; isSpinning := true;
       timeToNextSpin := timeToNextSpin s;
       spinTimeout := Some (player s) |}.

Section Engine.

(** The catalog of [./constants]. *)
Variable JOBS : list Job.

(** [const currentJob = JOBS[player.currentJobIndex]] *)
Definition currentJob (p : PlayerState) : option Job :=
  array_get JOBS (currentJobIndex p).

Definition isLastJob (p : PlayerState) : bool :=
  (currentJobIndex p =? Z.of_nat (List.length JOBS) - 1)%Z.

(** [handleWorkClick] *)
Definition handleWorkClick (s : AppState) : Reaction :=
  match calculateClickEarnings (currentJob (player s)) (player s) with
  | Some earnings => Some (setPlayer (credit earnings) s, [ClickSound])
  | None => None
  end.

(** The passive income effect: the interval exists only for a render with
    [gameState === WORKING], and is cleared by the effect's cleanup when
    [gameState] changes; this is one firing of its callback. *)
Definition passiveIncomeTick (s : AppState) : Reaction :=
  if negb (GameState_eqb (gameState s) WORKING) then Some (s, [])
  else
    match calculateSecEarnings (currentJob (player s)) (player s) with
    | Some earnings =>
        if Qgt_bool earnings 0
        then Some (setPlayer (credit earnings) s, [])
        else Some (s, [])
    | None => None
    end.

(** The callback of the [setTimeout] of [handleSpinRoulette], [now] being
    [Date.now()] and [rnd] [Math.random()].  Without a pending timer nothing
    fires.  An undefined multiplier would make the amount [NaN]: [None]. *)
Definition spinTimeoutFires (now rnd : Q) (s : AppState) : Reaction :=
  match spinTimeout s with
  | None => Some (s, [])
  | Some snap =>
      match calculateClickEarnings (currentJob snap) snap,
            calculateSecEarnings (currentJob snap) snap with
      | Some click, Some sec =>
          let potential := click * 20 + sec * 100 in
          match randomReward rnd with
          | Some reward =>
              let wonAmount := potential * reward in
              Some ({| gameState := gameState s;
                       player :=
                         setLastSpinTime now (credit wonAmount (player s));
                       isRouletteOpen := isRouletteOpen s;
                       isSpinning := false;
                       timeToNextSpin := timeToNextSpin s;
                       spinTimeout := None |},
                    [RouletteWin])
          | None => None
          end
      | _, _ => None
      end
  end.

(** *** The rendered buttons

    A button that is not rendered, or is rendered [disabled], does not run
    its handler. *)

Definition idle (s : AppState) : AppState * list Sound := (s, []).

(** [{!isLastJob && <button onClick={resign}
      disabled={player.money < currentJob.minMoneyToResign}>}] *)
Definition resignButton (job : Job) (s : AppState) : AppState * list Sound :=
  if isLastJob (player s) then idle s
  else if Qgt_bool (minMoneyToResign job) (money (player s)) then idle s
  else resign s.

(** [{isLastJob && <button onClick={() => { playEndSound();
      setGameState(GameState.END); }}>}] *)
Definition concludeButton (s : AppState) : AppState * list Sound :=
  if isLastJob (player s) then (setGameState END s, [EndSound]) else idle s.

(** The [k]-th button of [currentJob.upgrades.map(...)]:
    [disabled={isBought || !canAfford}]. *)
Definition upgradeButton (job : Job) (k : nat) (s : AppState)
  : AppState * list Sound :=
  match nth_error (upgrades job) k with
  | Some upgrade =>
      let isBought :=
        includes_str (purchasedUpgrades (player s)) (upgradeId upgrade) in
      let canAfford := Qge_bool (money (player s)) (cost upgrade) in
      if isBought || negb canAfford then idle s else buyUpgrade upgrade s
  | None => idle s
  end.

(** The spin button lives in the roulette modal:
    [disabled={timeToNextSpin > 0 || isSpinning}]. *)
Definition spinButton (s : AppState) : AppState * list Sound :=
  if isRouletteOpen s
  then if Qgt_bool (timeToNextSpin s) 0 || isSpinning s then idle s
       else (handleSpinRoulette s, [])
  else idle s.

(** [onClick={() => !isSpinning && setIsRouletteOpen(false)}] *)
Definition closeRouletteButton (s : AppState) : AppState * list Sound :=
  if isRouletteOpen s && negb (isSpinning s)
  then (setIsRouletteOpen false s, [])
  else idle s.

(** The [idx]-th card of [JOBS.map(...)] on the contract screen:
    [disabled={!isUnlocked || isCurrent}]. *)
Definition startJobButton (idx : nat) (s : AppState) : AppState * list Sound :=
  match nth_error JOBS idx with
  | Some _ =>
      let isUnlocked := includes_Z (unlockedJobs (player s)) (Z.of_nat idx) in
      let isCurrent := (currentJobIndex (player s) =? Z.of_nat idx)%Z in
      if negb isUnlocked || isCurrent then idle s
      else startJob (Z.of_nat idx) s
  | None => idle s
  end.

(** *** Events *)

Inductive Event :=
  | ClickStartCareer
  | ClickWork
  | ClickOpenRoulette
  | ClickCloseRoulette
  | ClickSpin
  | ClickUpgrade (k : nat)
  | ClickResign
  | ClickConclude
  | ClickStartJob (idx : nat)
  | ClickRestart
  | PassiveTick
  | CooldownTick (now : Q)
  | SpinTimeout (now rnd : Q).

(** [renderWorking] calls [calculateClickEarnings()]: with an undefined
    [currentJob] the render throws and nothing is mounted. *)
Definition renders (s : AppState) : bool :=
  match gameState s, currentJob (player s) with
  | WORKING, None => false
  | _, _ => true
  end.

(** One event against the screen that [gameState] selects.  A click that
    hits no button of the screen leaves the state as it is. *)
Definition dispatch (s : AppState) (e : Event) : Reaction :=
  if negb (renders s) then None
  else
    match e with
    | PassiveTick => passiveIncomeTick s
    | CooldownTick now => Some (updateTimer now s, [])
    | SpinTimeout now rnd => spinTimeoutFires now rnd s
    | _ =>
        match gameState s with
        | START =>
            match e with
            | ClickStartCareer =>
                Some (setGameState WORKING s, [PromotionSound])
            | _ => Some (idle s)
            end
        | WORKING =>
            match currentJob (player s) with
            | None => None
            | Some job =>
                match e with
                | ClickWork => handleWorkClick s
                | ClickOpenRoulette => Some (setIsRouletteOpen true s, [])
                | ClickCloseRoulette => Some (closeRouletteButton s)
                | ClickSpin => Some (spinButton s)
                | ClickUpgrade k => Some (upgradeButton job k s)
                | ClickResign => Some (resignButton job s)
                | ClickConclude => Some (concludeButton s)
                | _ => Some (idle s)
                end
            end
        | CHOOSE_JOB =>
            match e with
            | ClickStartJob idx => Some (startJobButton idx s)
            | _ => Some (idle s)
            end
        | END =>
            match e with
            | ClickRestart => Some (restartGame s, [PromotionSound])
            | _ => Some (idle s)
            end
        end
    end.

(** A run: the events one after the other, stopping at the first fault. *)
Fixpoint run (s : AppState) (events : list Event) : option AppState :=
  match events with
  | [] => Some s
  | e :: rest =>
      match dispatch s e with
      | Some (s', _) => run s' rest
      | None => None
      end
  end.

End Engine.

(** The state of the first render, for the player that the [useState]
    initializer produced. *)
Definition initialApp (p : PlayerState) : AppState :=
  {| gameState := START; player := p; isRouletteOpen := false;
     isSpinning := false; timeToNextSpin := 0; spinTimeout := None |}.

(** ** Persistence: the [useState] initializer of [player] *)

(** A value [JSON.parse] can return. *)
#[local] Set Warnings "-register-all".
Inductive JSValue :=
  | JNull
  | JBool (b : bool)
  | JNum (q : Q)
  | JStr (s : string)
  | JArr (items : list JSValue)
  | JObj (fields : list (string * JSValue)).
#[local] Set Warnings "register-all".

(** A plain object: its own properties in insertion order. *)
Definition JSObject : Type := list (string * JSValue).

Inductive Thrown := SyntaxError | TypeError.

Inductive Completion (A : Type) :=
  | Normal (a : A)
  | Throw (e : Thrown).
Arguments Normal {A} a.
Arguments Throw {A} e.

(** [o[key]], [None] being [undefined]. *)
Fixpoint get_prop (key : string) (o : JSObject) : option JSValue :=
  match o with
  | [] => None
  | (k, v) :: rest => if String.eqb k key then Some v else get_prop key rest
  end.

(** [o[key] = v]: an existing property keeps its place. *)
Fixpoint set_prop (key : string) (v : JSValue) (o : JSObject) : JSObject :=
  match o with
  | [] => [(key, v)]
  | (k, w) :: rest =>
      if String.eqb k key then (k, v) :: rest
      else (k, w) :: set_prop key v rest
  end.

Definition index_key (n : nat) : string :=
  NilEmpty.string_of_uint (Nat.to_uint n).

Fixpoint indexed (n : nat) (items : list JSValue) : JSObject :=
  match items with
  | [] => []
  | v :: rest => (index_key n, v) :: indexed (S n) rest
  end.

(** [{...v}]: the own enumerable properties of [v].  An array and a string
    spread their elements under their indices; [null], a boolean and a
    number spread nothing. *)
Definition spread (v : JSValue) : JSObject :=
  match v with
  | JObj fields => fields
  | JArr items => indexed 0 items
  | JStr s =>
      indexed 0
        (map (fun c => JStr (String c EmptyString)) (list_ascii_of_string s))
  | JNull | JBool _ | JNum _ => []
  end.

(** [v.key] for a key that is neither an index nor a built-in property
    (here [lastSpinTime]): reading a property of [null] throws, an object
    answers with its own property, every other value with [undefined]. *)
Definition get_member (v : JSValue) (key : string)
  : Completion (option JSValue) :=
  match v with
  | JNull => Throw TypeError
  | JObj fields => Normal (get_prop key fields)
  | JBool _ | JNum _ | JStr _ | JArr _ => Normal None
  end.

Definition truthy (v : JSValue) : bool :=
  match v with
  | JNull => false
  | JBool b => b
  | JNum q => negb (Qeq_bool q 0)
  | JStr s => negb (String.eqb s "")
  | JArr _ | JObj _ => true
  end.

(** [x || d] *)
Definition or_else (x : option JSValue) (d : JSValue) : JSValue :=
  match x with
  | Some v => if truthy v then v else d
  | None => d
  end.

(** The object literal of the initializer's fallback. *)
Definition freshObject : JSObject :=
  [ ("money", JNum 0); ("totalMoneyEarned", JNum 0);
    ("currentJobIndex", JNum 0); ("purchasedUpgrades", JArr []);
    ("unlockedJobs", JArr [JNum 0]); ("lastSpinTime", JNum 0) ]%string.

Section Load.

(** [JSON.parse] of the platform. *)
Variable JSON_parse : string -> Completion JSValue.

(** The body of the [try] block:
    [const parsed = JSON.parse(saved);
     return {...parsed, lastSpinTime: parsed.lastSpinTime || 0}]. *)
Definition loadTry (saved : string) : Completion JSObject :=
  match JSON_parse saved with
  | Throw e => Throw e
  | Normal parsed =>
      match get_member parsed "lastSpinTime" with
      | Throw e => Throw e
      | Normal m =>
          Normal (set_prop "lastSpinTime" (or_else m (JNum 0))
                    (spread parsed))
      end
  end.

(** The initializer, [saved] being
    [localStorage.getItem('work_clicker_save')]: [null] and the empty
    string are falsy; whatever the [try] block throws is caught (and
    logged) and the fallback literal is returned. *)
Definition loadPlayer (saved : option string) : JSObject :=
  match saved with
  | Some str =>
      if String.eqb str "" then freshObject
      else
        match loadTry str with
        | Normal o => o
        | Throw _ => freshObject
        end
  | None => freshObject
  end.

End Load.

(** *** The object seen through [interface PlayerState]

    TypeScript does not check the loaded object; this is the reading of an
    object whose fields have the declared types. *)

Definition as_int (q : Q) : option Z :=
  if Qeq_bool q (inject_Z (Qfloor q)) then Some (Qfloor q) else None.

Definition as_num (v : option JSValue) : option Q :=
  match v with Some (JNum q) => Some q | _ => None end.

Definition as_index (v : option JSValue) : option Z :=
  match v with Some (JNum q) => as_int q | _ => None end.

Fixpoint as_strings (items : list JSValue) : option (list string) :=
  match items with
  | [] => Some []
  | JStr s :: rest =>
      match as_strings rest with
      | Some l => Some (s :: l)
      | None => None
      end
  | _ :: _ => None
  end.

Fixpoint as_indices (items : list JSValue) : option (list Z) :=
  match items with
  | [] => Some []
  | JNum q :: rest =>
      match as_int q, as_indices rest with
      | Some i, Some l => Some (i :: l)
      | _, _ => None
      end
  | _ :: _ => None
  end.

Definition asPlayerState (o : JSObject) : option PlayerState :=
  match as_num (get_prop "money" o),
        as_num (get_prop "totalMoneyEarned" o),
        as_index (get_prop "currentJobIndex" o),
        get_prop "purchasedUpgrades" o,
        get_prop "unlockedJobs" o,
        as_num (get_prop "lastSpinTime" o) with
  | Some m, Some t, Some i, Some (JArr pu), Some (JArr ul), Some l =>
      match as_strings pu, as_indices ul with
      | Some pu', Some ul' =>
          Some {| money := m; totalMoneyEarned := t; currentJobIndex := i;
                  purchasedUpgrades := pu'; unlockedJobs := ul';
                  lastSpinTime := l |}
      | _, _ => None
      end
  | _, _, _, _, _, _ => None
  end.

(** The object that [JSON.stringify(player)] writes and [JSON.parse] reads
    back, without its last field and in full. *)
Definition legacyObject (p : PlayerState) : JSObject :=
  [ ("money", JNum (money p));
    ("totalMoneyEarned", JNum (totalMoneyEarned p));
    ("currentJobIndex", JNum (inject_Z (currentJobIndex p)));
    ("purchasedUpgrades", JArr (map JStr (purchasedUpgrades p)));
    ("unlockedJobs",
       JArr (map (fun i => JNum (inject_Z i)) (unlockedJobs p))) ]%string.

Definition playerObject (p : PlayerState) : JSObject :=
  legacyObject p ++ [ ("lastSpinTime"%string, JNum (lastSpinTime p)) ].

(** ** The earnings formula of the specification *)


(** The bonus an upgrade carries, [0] when the field is not defined. *)
Definition bonus_value (bonus : Upgrade -> option Q) (u : Upgrade) : Q :=
  match bonus u with
  | Some b => b
  | None => 0
  end.


(** The catalog obeys the data model: no negative rate, bonus or cost. *)
Definition bonus_nonneg (bonus : Upgrade -> option Q) (u : Upgrade) : Prop :=
  0 <= bonus_value bonus u.

Definition upgrade_ok (u : Upgrade) : Prop :=
  0 <= cost u /\ bonus_nonneg bonusClick u /\ bonus_nonneg bonusSec u.

Definition job_ok (job : Job) : Prop :=
  0 <= baseClick job /\ 0 <= baseSec job /\ 0 <= minMoneyToResign job
  /\ Forall upgrade_ok (upgrades job).

Definition catalog_ok (JOBS : list Job) : Prop := Forall job_ok JOBS.

(** ** Vocabulary of the properties *)

(** What one purchased id contributes. *)
Definition contribution (bonus : Upgrade -> option Q) (job : Job)
    (i : string) : Q :=
  match find_upgrade job i with
  | Some u => bonus_value bonus u
  | None => 0
  end.



(** [buyUpgrade] goes through: the price is affordable and the id is not
    yet owned. *)
Definition purchasable (u : Upgrade) (p : PlayerState) : Prop :=
  cost u <= money p /\ ~ In (upgradeId u) (purchasedUpgrades p).

(** What [parsed.lastSpinTime || 0] makes of a stored time stamp. *)
Definition loadedSpinTime (t : Q) : Q := if Qeq_bool t 0 then 0 else t.

(** What a step does to the purse: it earns some [a >= 0], it pays the price
    of an affordable upgrade, or it is the restart. *)
Definition earns (p p' : PlayerState) : Prop :=
  exists a, 0 <= a
    /\ money p' == money p + a
    /\ totalMoneyEarned p' == totalMoneyEarned p + a.

Definition pays (p p' : PlayerState) : Prop :=
  exists u, cost u <= money p
    /\ money p' = money p - cost u
    /\ totalMoneyEarned p' = totalMoneyEarned p.

Inductive purse_step (p p' : PlayerState) : Prop :=
  | purse_earns : earns p p' -> purse_step p p'
  | purse_pays : pays p p' -> purse_step p p'
  | purse_reset : p' = freshPlayer -> purse_step p p'.

(** On the contract screen nothing is owned. *)
Definition contract_screen_empty (s : AppState) : Prop :=
  gameState s = CHOOSE_JOB -> purchasedUpgrades (player s) = [].

(** ** Sample data, to run the definitions on concrete input *)

Definition coffee : Upgrade :=
  {| upgradeId := "coffee"; upgradeName := "Coffee"; cost := 10;
     bonusClick := Some 1; bonusSec := None |}.

Definition macro : Upgrade :=
  {| upgradeId := "macro"; upgradeName := "Macro"; cost := 50;
     bonusClick := None; bonusSec := Some 2 |}.

Definition intern : Job :=
  {| jobId := 0; jobName := "Intern"; icon := "i"; baseClick := 1;
     baseSec := 1; upgrades := [coffee; macro]; minMoneyToResign := 100 |}.

Definition analyst : Job :=
  {| jobId := 1; jobName := "Analyst"; icon := "a"; baseClick := 5;
     baseSec := 1; upgrades := []; minMoneyToResign := 1000 |}.

Definition sampleJobs : list Job := [intern; analyst].

(** An upgrade that no job of the sample catalog offers. *)
Definition ghost : Upgrade :=
  {| upgradeId := "ghost"; upgradeName := "Ghost"; cost := 10;
     bonusClick := Some 1000; bonusSec := None |}.

Definition withMoney (m : Q) (p : PlayerState) : PlayerState :=
  {| money := m; totalMoneyEarned := totalMoneyEarned p;
     currentJobIndex := currentJobIndex p;
     purchasedUpgrades := purchasedUpgrades p;
     unlockedJobs := unlockedJobs p; lastSpinTime := lastSpinTime p |}.

(** The working screen of a fresh player who holds [m]. *)
Definition atWork (m : Q) : AppState :=
  setGameState WORKING (initialApp (withMoney m freshPlayer)).

(** The last job of the sample catalog, reached with [m] in hand. *)
Definition atLastJob (m : Q) : AppState := fst (startJob 1 (atWork m)).

(** Two stored players: one of the second job, one whose index points
    outside the sample catalog. *)
Definition veteran : PlayerState :=
  {| money := 75; totalMoneyEarned := 300; currentJobIndex := 1;
     purchasedUpgrades := []; unlockedJobs := [0; 1]%Z;
     lastSpinTime := 1700000000000 |}.

Definition strayed : PlayerState :=
  {| money := 75; totalMoneyEarned := 300; currentJobIndex := 7;
     purchasedUpgrades := []; unlockedJobs := [0; 1]%Z;
     lastSpinTime := 1700000000000 |}.

(** A table that stands for [JSON.parse] on five stored texts; every other
    text is not JSON. *)
Definition sampleParse (text : string) : Completion JSValue :=
  if String.eqb text "null" then Normal JNull
  else if String.eqb text "42" then Normal (JNum 42)
  else if String.eqb text "{}" then Normal (JObj [])
  else if String.eqb text "<veteran, old format>"
       then Normal (JObj (legacyObject veteran))
  else if String.eqb text "<strayed>"
       then Normal (JObj (playerObject strayed))
  else Throw SyntaxError.

(** ** The steps of the application, one by one *)

(** The state the roulette's timeout leaves behind. *)
Definition paid (now wonAmount : Q) (s : AppState) : AppState :=
  {| gameState := gameState s;
     player := setLastSpinTime now (credit wonAmount (player s));
     isRouletteOpen := isRouletteOpen s;
     isSpinning := false;
     timeToNextSpin := timeToNextSpin s;
     spinTimeout := None |}.

(** The state a spin that passes the gate leaves behind. *)
Definition armed (s : AppState) : AppState :=
  {| gameState := gameState s; player := player s;
     isRouletteOpen := isRouletteOpen s; isSpinning := true;
     timeToNextSpin := timeToNextSpin s;
     spinTimeout := Some (player s) |}.

(** Every way in which [dispatch] takes a state to the next, with the
    condition under which the screen lets it happen. *)
Inductive transition (JOBS : list Job) (s : AppState) : AppState -> Prop :=
  | t_idle : transition JOBS s s
  | t_timer (now : Q) : transition JOBS s (updateTimer now s)
  | t_start :
      gameState s = START ->
      transition JOBS s (setGameState WORKING s)
  | t_click (job : Job) :
      gameState s = WORKING ->
      currentJob JOBS (player s) = Some job ->
      transition JOBS s
        (setPlayer
           (credit (clickEarnings job (purchasedUpgrades (player s)))) s)
  | t_tick (job : Job) :
      gameState s = WORKING ->
      currentJob JOBS (player s) = Some job ->
      0 < perSecondEarnings job (purchasedUpgrades (player s)) ->
      transition JOBS s
        (setPlayer
           (credit (perSecondEarnings job (purchasedUpgrades (player s)))) s)
  | t_open (job : Job) :
      gameState s = WORKING ->
      currentJob JOBS (player s) = Some job ->
      transition JOBS s (setIsRouletteOpen true s)
  | t_close (job : Job) :
      gameState s = WORKING ->
      currentJob JOBS (player s) = Some job ->
      isRouletteOpen s = true -> isSpinning s = false ->
      transition JOBS s (setIsRouletteOpen false s)
  | t_spin (job : Job) :
      gameState s = WORKING ->
      currentJob JOBS (player s) = Some job ->
      isRouletteOpen s = true ->
      timeToNextSpin s <= 0 -> isSpinning s = false ->
      transition JOBS s (armed s)
  | t_buy (job : Job) (k : nat) (u : Upgrade) :
      gameState s = WORKING ->
      currentJob JOBS (player s) = Some job ->
      nth_error (upgrades job) k = Some u ->
      purchasable u (player s) ->
      transition JOBS s (fst (buyUpgrade u s))
  | t_resign (job : Job) :
      gameState s = WORKING ->
      currentJob JOBS (player s) = Some job ->
      currentJobIndex (player s) <> (Z.of_nat (List.length JOBS) - 1)%Z ->
      minMoneyToResign job <= money (player s) ->
      transition JOBS s (fst (resign s))
  | t_conclude (job : Job) :
      gameState s = WORKING ->
      currentJob JOBS (player s) = Some job ->
      currentJobIndex (player s) = (Z.of_nat (List.length JOBS) - 1)%Z ->
      transition JOBS s (setGameState END s)
  | t_startJob (idx : nat) (job : Job) :
      gameState s = CHOOSE_JOB ->
      nth_error JOBS idx = Some job ->
      In (Z.of_nat idx) (unlockedJobs (player s)) ->
      currentJobIndex (player s) <> Z.of_nat idx ->
      transition JOBS s (fst (startJob (Z.of_nat idx) s))
  | t_restart :
      gameState s = END ->
      transition JOBS s (restartGame s)
  | t_payout (now rnd : Q) (snap : PlayerState) (job : Job) (m : Q) :
      spinTimeout s = Some snap ->
      currentJob JOBS snap = Some job ->
      randomReward rnd = Some m ->
      transition JOBS s
        (paid now
           ((clickEarnings job (purchasedUpgrades snap) * 20
             + perSecondEarnings job (purchasedUpgrades snap) * 100) * m)
           s).

(** An event the platform can deliver: [Math.random()] is in [[0, 1)]. *)
Definition event_ok (e : Event) : Prop :=
  match e with
  | SpinTimeout _ rnd => 0 <= rnd /\ rnd < 1
  | _ => True
  end.

(** An index of the catalog. *)
Definition in_catalog (JOBS : list Job) (i : Z) : Prop :=
  (0 <= i < Z.of_nat (List.length JOBS))%Z.

(** The career is sound: the current job and every unlocked job exist, the
    current job is unlocked, job 0 is unlocked, no job is unlocked before the
    one below it, none is listed twice, and the job of a pending spin
    exists. *)
Record career_ok (JOBS : list Job) (s : AppState) : Prop := {
  career_current : in_catalog JOBS (currentJobIndex (player s));
  career_unlocked : In (currentJobIndex (player s)) (unlockedJobs (player s));
  career_range :
    forall j, In j (unlockedJobs (player s)) -> in_catalog JOBS j;
  career_first : In 0%Z (unlockedJobs (player s));
  career_ladder :
    forall j, In j (unlockedJobs (player s)) ->
      j = 0%Z \/ In (j - 1)%Z (unlockedJobs (player s));
  career_nodup : NoDup (unlockedJobs (player s));
  career_snapshot :
    forall snap, spinTimeout s = Some snap ->
      in_catalog JOBS (currentJobIndex snap)
}.

(** The inventory is sound: what is owned is an upgrade of the current job,
    owned once; a pending spin remembers such an inventory too. *)
Definition owns_from (JOBS : list Job) (p : PlayerState) : Prop :=
  NoDup (purchasedUpgrades p)
  /\ forall job, currentJob JOBS p = Some job ->
       incl (purchasedUpgrades p) (map upgradeId (upgrades job)).

Definition inventory_ok (JOBS : list Job) (s : AppState) : Prop :=
  contract_screen_empty s /\ owns_from JOBS (player s).


(** The roulette's flag and its timer go together. *)
Definition spin_flag_ok (s : AppState) : Prop :=
  isSpinning s = true <-> spinTimeout s <> None.

(** A fresh player at work, the roulette open and a spin in flight. *)
Definition spinning : AppState := setIsRouletteOpen true (armed (atWork 0)).

(** ** The mute preference *)

(** The initializer of [isMuted]:
    [localStorage.getItem('work_clicker_muted') === 'true']. *)
Definition loadMuted (saved : option string) : bool :=
  match saved with
  | Some text => String.eqb text "true"
  | None => false
  end.

(** [String(isMuted)], what the effect stores. *)
Definition storeMuted (isMuted : bool) : string :=
  if isMuted then "true"%string else "false"%string.

(** ** Sound synthesis *)

Inductive OscillatorType := sine | square | sawtooth | triangle.

(** One oscillator of [playSound]: its frequency and wave form, the gain it
    starts with (it fades to 0.0001 at the end), and when it starts and
    stops on the clock of the audio context. *)
Record Note := mkNote {
  noteFrequency : Q;
  noteType : OscillatorType;
  noteVolume : Q;
  noteStart : Q;
  noteStop : Q
}.

(** The body of [freqs.forEach((freq, i) => ...)], from index [i] on. *)
Fixpoint scheduleNotes (now : Q) (type : OscillatorType)
    (duration volume : Q) (i : nat) (freqs : list Q) : list Note :=
  match freqs with
  | [] => []
  | freq :: rest =>
      {| noteFrequency := freq; noteType := type; noteVolume := volume;
         noteStart := now + inject_Z (Z.of_nat i) * duration;
         noteStop := now + (inject_Z (Z.of_nat i) + 1) * duration |}
      :: scheduleNotes now type duration volume (S i) rest
  end.

(** [playSound(freqs, type, duration, volume)] in a render whose mute flag
    is [isMuted], [now] being [ctx.currentTime]. *)
Definition playSound (isMuted : bool) (now : Q) (freqs : list Q)
    (type : OscillatorType) (duration volume : Q) : list Note :=
  if isMuted then [] else scheduleNotes now type duration volume 0 freqs.

Definition playClickSound (isMuted : bool) (now : Q) : list Note :=
  playSound isMuted now [440; 880] sine 0.05 0.05.

(** [toggleMute] in a render whose flag is [isMuted]: the new flag, and the
    notes of the timeout it sets when the flag was on.  The callback calls
    the [playClickSound] of the render that ran [toggleMute], which reads
    that render's [isMuted]; [later] is the audio clock when it runs. *)
Definition toggleMute (isMuted : bool) (later : Q) : bool * list Note :=
  (negb isMuted, if isMuted then playClickSound isMuted later else []).

(** ** The ticking of the wheel *)

Definition totalTicks : nat := 40.

(** The interval of [handleSpinRoulette]: its counter, and whether it has
    not been cleared yet. *)
Record TickInterval := mkTick {
  tickCount : nat;
  ticking : bool
}.

(** One firing of the interval's callback: the interval after it and the
    number of calls of [playRouletteTick].  A cleared interval does not
    fire. *)
Definition tickFires (t : TickInterval) : TickInterval * nat :=
  if ticking t
  then if (totalTicks <=? tickCount t)%nat
       then ({| tickCount := tickCount t; ticking := false |}, 0%nat)
       else ({| tickCount := S (tickCount t); ticking := true |}, 1%nat)
  else (t, 0%nat).

(** [n] firings, the calls of [playRouletteTick] added up. *)
Fixpoint tickRuns (n : nat) (t : TickInterval) : TickInterval * nat :=
  match n with
  | O => (t, 0%nat)
  | S n' =>
      let (t1, a) := tickFires t in
      let (t2, b) := tickRuns n' t1 in
      (t2, (a + b)%nat)
  end.

(** ** The floating amounts *)

Record Particle := mkParticle {
  particleId : nat;
  particleX : Q;
  particleY : Q;
  particleVal : string
}.

(** [particleIdRef.current] and the [clickParticles] cell. *)
Record Particles := mkParticles {
  particleIdRef : nat;
  clickParticles : list Particle
}.

(** [const id = particleIdRef.current++;
     setClickParticles(prev => [...prev, { id, x, y, val }])] *)
Definition spawnParticle (x y : Q) (val : string) (st : Particles)
  : Particles :=
  {| particleIdRef := S (particleIdRef st);
     clickParticles :=
       clickParticles st
       ++ [ {| particleId := particleIdRef st; particleX := x;
               particleY := y; particleVal := val |} ] |}.

(** The timeout of a particle:
    [setClickParticles(prev => prev.filter(p => p.id !== id))]. *)
Definition expireParticle (id : nat) (st : Particles) : Particles :=
  {| particleIdRef := particleIdRef st;
     clickParticles :=
       filter (fun p => negb (particleId p =? id)%nat) (clickParticles st) |}.

Inductive ParticleEvent :=
  | Spawn (x y : Q) (val : string)
  | Expire (id : nat).

Definition particleStep (st : Particles) (e : ParticleEvent) : Particles :=
  match e with
  | Spawn x y val => spawnParticle x y val st
  | Expire id => expireParticle id st
  end.

Definition noParticles : Particles :=
  {| particleIdRef := 0; clickParticles := [] |}.

(** The ids on the screen are below the counter and pairwise different. *)
Definition particles_ok (st : Particles) : Prop :=
  NoDup (map particleId (clickParticles st))
  /\ forall p, In p (clickParticles st) ->
       (particleId p < particleIdRef st)%nat.

(** * Properties *)

(** ** Numbers and arrays *)

Lemma Qge_bool_iff a b : Qge_bool a b = true <-> b <= a.
Proof. unfold Qge_bool. apply Qle_bool_iff. Qed.

Lemma Qgt_bool_iff a b : Qgt_bool a b = true <-> b < a.
Proof.
  unfold Qgt_bool. rewrite negb_true_iff. split.
  - intros H. apply Qnot_le_lt. intros Hle.
    apply Qle_bool_iff in Hle. congruence.
  - intros H. destruct (Qle_bool a b) eqn:E; [|reflexivity].
    apply Qle_bool_iff in E. exfalso. apply (Qlt_not_le _ _ H E).
Qed.

Lemma Qgt_bool_false_iff a b : Qgt_bool a b = false <-> a <= b.
Proof.
  unfold Qgt_bool. rewrite negb_false_iff. apply Qle_bool_iff.
Qed.

Lemma GameState_eqb_eq a b : GameState_eqb a b = true <-> a = b.
Proof. destruct a, b; simpl; split; congruence. Qed.

Lemma includes_str_In arr x : includes_str arr x = true <-> In x arr.
Proof.
  unfold includes_str. rewrite existsb_exists. split.
  - intros [y [Hy E]]. apply String.eqb_eq in E. subst. exact Hy.
  - intros H. exists x. split; [exact H | apply String.eqb_refl].
Qed.

Lemma includes_Z_In arr x : includes_Z arr x = true <-> In x arr.
Proof.
  unfold includes_Z. rewrite existsb_exists. split.
  - intros [y [Hy E]]. apply Z.eqb_eq in E. subst. exact Hy.
  - intros H. exists x. split; [exact H | apply Z.eqb_refl].
Qed.

(** ** Earnings *)

Section Earnings.

Variable bonus : Upgrade -> option Q.
Variable job : Job.

Lemma add_bonus_contribution acc i :
  add_bonus bonus job acc i == acc + contribution bonus job i.
Proof.
  unfold add_bonus, contribution, bonus_value.
  destruct (find_upgrade job i) as [u|]; [|lra].
  destruct (bonus u) as [b|]; [|lra].
  destruct (Qeq_bool b 0) eqn:E; [|lra].
  apply Qeq_bool_iff in E. lra.
Qed.


End Earnings.

Section EarningsFormula.

Variable bonus : Upgrade -> option Q.










(** Whatever was bought, the earnings of a job of a sound catalog are not
    negative. *)
Lemma earnings_of_nonneg base job S :
  0 <= base job ->
  Forall (bonus_nonneg bonus) (upgrades job) ->
  0 <= earnings_of base bonus job S.
Proof.
  intros Hbase Hpos. unfold earnings_of.
  assert (G : forall acc, 0 <= acc ->
            0 <= fold_left (add_bonus bonus job) S acc).
  { induction S as [|i S IH]; intros acc Hacc; simpl; [exact Hacc|].
    apply IH. rewrite add_bonus_contribution.
    unfold contribution, find_upgrade.
    destruct (find _ (upgrades job)) as [u|] eqn:E; [|lra].
    apply find_some in E. destruct E as [Hin _].
    rewrite Forall_forall in Hpos. specialize (Hpos u Hin).
    unfold bonus_nonneg in Hpos. lra. }
  apply G. exact Hbase.
Qed.

End EarningsFormula.




(** ** Resignation *)

Lemma fold_set_add_In x l : forall seen,
  In x (fold_left set_add l seen) <-> In x seen \/ In x l.
Proof.
  induction l as [|y l IH]; intros seen; simpl.
  - tauto.
  - rewrite IH. unfold set_add.
    destruct (includes_Z seen y) eqn:E.
    + apply includes_Z_In in E. split.
      * intros [H|H]; auto.
      * intros [H|[H|H]]; subst; auto.
    + rewrite in_app_iff. simpl. split.
      * intros [[H|[H|[]]]|H]; auto.
      * intros [H|[H|H]]; auto.
Qed.

Lemma array_from_set_In x l : In x (array_from_set l) <-> In x l.
Proof.
  unfold array_from_set. rewrite fold_set_add_In. simpl. tauto.
Qed.

(** C10: [resign] empties [purchasedUpgrades], adds [currentJobIndex + 1] to
    [unlockedJobs] (dropping nothing) and moves the screen to [CHOOSE_JOB];
    [money], [totalMoneyEarned], [currentJobIndex] and [lastSpinTime] keep
    their values, and so do the roulette's cells. *)
Theorem resign_frame (s : AppState) :
  let s' := fst (resign s) in
  gameState s' = CHOOSE_JOB
  /\ purchasedUpgrades (player s') = []
  /\ (forall j, In j (unlockedJobs (player s')) <->
        In j (unlockedJobs (player s))
        \/ j = (currentJobIndex (player s) + 1)%Z)
  /\ money (player s') = money (player s)
  /\ totalMoneyEarned (player s') = totalMoneyEarned (player s)
  /\ currentJobIndex (player s') = currentJobIndex (player s)
  /\ lastSpinTime (player s') = lastSpinTime (player s)
  /\ isRouletteOpen s' = isRouletteOpen s
  /\ isSpinning s' = isSpinning s
  /\ timeToNextSpin s' = timeToNextSpin s
  /\ spinTimeout s' = spinTimeout s.
Proof.
  simpl. repeat split; try reflexivity.
  - rewrite array_from_set_In, in_app_iff. simpl. intuition.
  - rewrite array_from_set_In, in_app_iff. simpl. intuition.
Qed.

(** C4, as the code has it: [resign] has no guard of its own, the refusal
    is the button's.  On a screen whose current job is [job], while [money]
    is below [job.minMoneyToResign] or while the current job is the last of
    the catalog, a click on the resign button is answered without a fault
    and leaves every cell of the state, [player] and [gameState] included,
    as it was.  [resign] itself, called in such a state, goes through: it
    moves the screen to [CHOOSE_JOB], empties [purchasedUpgrades] and
    unlocks [currentJobIndex + 1]. *)
Theorem resign_button_refuses (JOBS : list Job) (job : Job) (s : AppState) :
  currentJob JOBS (player s) = Some job ->
  money (player s) < minMoneyToResign job
  \/ currentJobIndex (player s) = (Z.of_nat (List.length JOBS) - 1)%Z ->
  resignButton JOBS job s = (s, [])
  /\ dispatch JOBS s ClickResign = Some (s, [])
  /\ gameState (fst (resign s)) = CHOOSE_JOB
  /\ purchasedUpgrades (player (fst (resign s))) = []
  /\ In (currentJobIndex (player s) + 1)%Z
        (unlockedJobs (player (fst (resign s)))).
Proof.
  intros Hjob Hno.
  assert (Hbtn : resignButton JOBS job s = (s, [])).
  { unfold resignButton, isLastJob, idle.
    destruct (currentJobIndex (player s) =? Z.of_nat (List.length JOBS) - 1)%Z
      eqn:El; [reflexivity|].
    destruct Hno as [Hlt|Hlast].
    - apply Qgt_bool_iff in Hlt. rewrite Hlt. reflexivity.
    - apply Z.eqb_neq in El. contradiction. }
  split; [exact Hbtn|]. split.
  - unfold dispatch, renders. rewrite Hjob.
    destruct (gameState s); simpl; try reflexivity.
    rewrite Hbtn. reflexivity.
  - simpl. split; [reflexivity|]. split; [reflexivity|].
    apply array_from_set_In, in_or_app. right. left. reflexivity.
Qed.

Lemma resign_button_refuses_witness :
  resignButton sampleJobs intern (atWork 99) = (atWork 99, [])
  /\ dispatch sampleJobs (atWork 99) ClickResign = Some (atWork 99, [])
  /\ gameState (fst (resign (atWork 99))) = CHOOSE_JOB
  /\ purchasedUpgrades (player (fst (resign (atWork 99)))) = []
  /\ In (currentJobIndex (player (atWork 99)) + 1)%Z
        (unlockedJobs (player (fst (resign (atWork 99))))).
Proof.
  apply (resign_button_refuses sampleJobs intern (atWork 99)).
  - reflexivity.
  - left. simpl. reflexivity.
Defined.

(** C4, as stated, fails: [resign] called below the threshold is not
    refused, the screen changes and the next job is unlocked; called on the
    last job it is not refused either, and unlocks an index that no job of
    the catalog has. *)
Lemma resign_is_not_refused :
  currentJob sampleJobs (player (atWork 99)) = Some intern
  /\ money (player (atWork 99)) < minMoneyToResign intern
  /\ gameState (atWork 99) = WORKING
  /\ gameState (fst (resign (atWork 99))) = CHOOSE_JOB
  /\ unlockedJobs (player (atWork 99)) = [0%Z]
  /\ unlockedJobs (player (fst (resign (atWork 99)))) = [0%Z; 1%Z]
  /\ currentJobIndex (player (atLastJob 0))
     = (Z.of_nat (List.length sampleJobs) - 1)%Z
  /\ gameState (fst (resign (atLastJob 0))) = CHOOSE_JOB
  /\ unlockedJobs (player (fst (resign (atLastJob 0)))) = [0%Z; 2%Z]
  /\ array_get sampleJobs 2 = None.
Proof.
  repeat split; reflexivity.
Qed.

(** ** Passive income *)

(** C9: outside the [WORKING] screen a firing of the passive income timer
    changes nothing: [money] and [totalMoneyEarned] keep their values (the
    whole state does), and nothing is thrown. *)
Theorem passive_income_only_while_working (JOBS : list Job) (s : AppState) :
  gameState s = START \/ gameState s = CHOOSE_JOB \/ gameState s = END ->
  passiveIncomeTick JOBS s = Some (s, [])
  /\ dispatch JOBS s PassiveTick = Some (s, [])
  /\ forall s' out, dispatch JOBS s PassiveTick = Some (s', out) ->
       money (player s') = money (player s)
       /\ totalMoneyEarned (player s') = totalMoneyEarned (player s).
Proof.
  intros H.
  assert (Ht : passiveIncomeTick JOBS s = Some (s, [])).
  { unfold passiveIncomeTick.
    destruct H as [H|[H|H]]; rewrite H; reflexivity. }
  assert (Hd : dispatch JOBS s PassiveTick = Some (s, [])).
  { unfold dispatch, renders.
    destruct H as [H|[H|H]]; rewrite H; simpl; exact Ht. }
  split; [exact Ht|]. split; [exact Hd|].
  intros s' out Hs'. rewrite Hd in Hs'. inversion Hs'; subst.
  split; reflexivity.
Qed.

Lemma passive_income_only_while_working_witness :
  passiveIncomeTick sampleJobs (setGameState CHOOSE_JOB (atWork 5))
    = Some (setGameState CHOOSE_JOB (atWork 5), [])
  /\ dispatch sampleJobs (setGameState CHOOSE_JOB (atWork 5)) PassiveTick
    = Some (setGameState CHOOSE_JOB (atWork 5), [])
  /\ forall s' out,
       dispatch sampleJobs (setGameState CHOOSE_JOB (atWork 5)) PassiveTick
         = Some (s', out) ->
       money (player s')
         = money (player (setGameState CHOOSE_JOB (atWork 5)))
       /\ totalMoneyEarned (player s')
         = totalMoneyEarned (player (setGameState CHOOSE_JOB (atWork 5))).
Proof.
  apply (passive_income_only_while_working sampleJobs
           (setGameState CHOOSE_JOB (atWork 5))).
  right. left. reflexivity.
Defined.

(** ** Buying an upgrade *)

Lemma purchasable_guard u p :
  Qge_bool (money p) (cost u)
    && negb (includes_str (purchasedUpgrades p) (upgradeId u)) = true
  <-> purchasable u p.
Proof.
  unfold purchasable.
  rewrite andb_true_iff, negb_true_iff, Qge_bool_iff.
  rewrite <- (includes_str_In (purchasedUpgrades p) (upgradeId u)).
  destruct (includes_str _ _); intuition congruence.
Qed.

(** C3, as the code has it: [buyUpgrade] receives the upgrade itself, not an
    id, and does not look it up in the catalog.  It goes through exactly
    when the id is not in [purchasedUpgrades] and [money >= cost]; then
    [money] drops by [cost], the id is appended to [purchasedUpgrades] and
    nothing else changes; otherwise the state is unchanged and the error
    sound is requested.  A second call with the same upgrade is refused, so
    two calls leave the state of one. *)
Theorem buyUpgrade_accepts_or_refuses (u : Upgrade) (s : AppState) :
  (snd (buyUpgrade u s) = [PurchaseSound] <-> purchasable u (player s))
  /\ (purchasable u (player s) ->
        let s' := fst (buyUpgrade u s) in
        money (player s') = money (player s) - cost u
        /\ purchasedUpgrades (player s')
             = purchasedUpgrades (player s) ++ [upgradeId u]
        /\ totalMoneyEarned (player s') = totalMoneyEarned (player s)
        /\ currentJobIndex (player s') = currentJobIndex (player s)
        /\ unlockedJobs (player s') = unlockedJobs (player s)
        /\ lastSpinTime (player s') = lastSpinTime (player s)
        /\ s' = setPlayer (fun _ => player s') s
        /\ buyUpgrade u s' = (s', [ErrorSound]))
  /\ (~ purchasable u (player s) -> buyUpgrade u s = (s, [ErrorSound]))
  /\ fst (buyUpgrade u (fst (buyUpgrade u s))) = fst (buyUpgrade u s).
Proof.
  assert (Hyes : purchasable u (player s) ->
            buyUpgrade u s
            = (setPlayer (fun prev =>
                 {| money := money prev - cost u;
                    totalMoneyEarned := totalMoneyEarned prev;
                    currentJobIndex := currentJobIndex prev;
                    purchasedUpgrades :=
                      purchasedUpgrades prev ++ [upgradeId u];
                    unlockedJobs := unlockedJobs prev;
                    lastSpinTime := lastSpinTime prev |}) s,
               [PurchaseSound])).
  { intros H. apply purchasable_guard in H. unfold buyUpgrade.
    rewrite H. reflexivity. }
  assert (Hno : ~ purchasable u (player s) ->
            buyUpgrade u s = (s, [ErrorSound])).
  { intros H. unfold buyUpgrade.
    destruct (Qge_bool _ _ && negb _) eqn:E; [|reflexivity].
    apply purchasable_guard in E. contradiction. }
  assert (Hagain : purchasable u (player s) ->
            buyUpgrade u (fst (buyUpgrade u s))
            = (fst (buyUpgrade u s), [ErrorSound])).
  { intros H. rewrite (Hyes H). simpl.
    unfold buyUpgrade. simpl.
    assert (E : includes_str (purchasedUpgrades (player s) ++ [upgradeId u])
                  (upgradeId u) = true).
    { apply includes_str_In. apply in_or_app. right. left. reflexivity. }
    rewrite E. rewrite andb_false_r. reflexivity. }
  split; [|split; [|split; [exact Hno|]]].
  - split.
    + intros H. destruct (Qge_bool (money (player s)) (cost u)
                          && negb (includes_str (purchasedUpgrades (player s))
                                     (upgradeId u))) eqn:E.
      * apply purchasable_guard. exact E.
      * unfold buyUpgrade in H. rewrite E in H. discriminate.
    + intros H. rewrite (Hyes H). reflexivity.
  - intros H s'. subst s'. split; [|split; [|split; [|split; [|split;
      [|split; [|split]]]]]]; try (rewrite (Hyes H); reflexivity).
    exact (Hagain H).
  - destruct (Qge_bool (money (player s)) (cost u)
              && negb (includes_str (purchasedUpgrades (player s))
                         (upgradeId u))) eqn:E.
    + apply purchasable_guard in E. rewrite (Hagain E). reflexivity.
    + assert (N : ~ purchasable u (player s)).
      { intros H. apply purchasable_guard in H. congruence. }
      rewrite (Hno N). simpl. rewrite (Hno N). reflexivity.
Qed.

Lemma buyUpgrade_accepts_or_refuses_witness :
  purchasable coffee (player (atWork 10))
  /\ money (player (fst (buyUpgrade coffee (atWork 10)))) == 0
  /\ purchasedUpgrades (player (fst (buyUpgrade coffee (atWork 10))))
     = ["coffee"%string]
  /\ buyUpgrade coffee (fst (buyUpgrade coffee (atWork 10)))
     = (fst (buyUpgrade coffee (atWork 10)), [ErrorSound])
  /\ ~ purchasable macro (player (atWork 10))
  /\ buyUpgrade macro (atWork 10) = (atWork 10, [ErrorSound]).
Proof.
  assert (Hyes : purchasable coffee (player (atWork 10))).
  { split; [simpl; lra | simpl; tauto]. }
  assert (Hno : ~ purchasable macro (player (atWork 10))).
  { intros [H _]. simpl in H. lra. }
  destruct (buyUpgrade_accepts_or_refuses coffee (atWork 10))
    as [_ [Hbuy _]].
  destruct (buyUpgrade_accepts_or_refuses macro (atWork 10))
    as [_ [_ [Hrej _]]].
  destruct (Hbuy Hyes) as [Hm [Hp [_ [_ [_ [_ [_ Hagain]]]]]]].
  split; [exact Hyes|]. split; [rewrite Hm; simpl; lra|].
  split; [rewrite Hp; reflexivity|]. split; [exact Hagain|].
  split; [exact Hno|]. exact (Hrej Hno).
Defined.

(** C3, as stated, fails: an upgrade that is not in the catalog of the
    current job is bought all the same. *)
Lemma buyUpgrade_outside_catalog :
  currentJob sampleJobs (player (atWork 10)) = Some intern
  /\ find_upgrade intern (upgradeId ghost) = None
  /\ snd (buyUpgrade ghost (atWork 10)) = [PurchaseSound]
  /\ purchasedUpgrades (player (fst (buyUpgrade ghost (atWork 10))))
     = ["ghost"%string]
  /\ money (player (fst (buyUpgrade ghost (atWork 10)))) == 0.
Proof.
  repeat split; reflexivity.
Qed.

(** ** The roulette *)

Lemma array_get_in_range {A : Type} (arr : list A) (i : Z) :
  (0 <= i < Z.of_nat (List.length arr))%Z ->
  exists x, array_get arr i = Some x /\ In x arr.
Proof.
  intros [Hlo Hhi]. unfold array_get.
  destruct (i <? 0)%Z eqn:E; [apply Z.ltb_lt in E; lia|].
  destruct (nth_error arr (Z.to_nat i)) as [x|] eqn:En.
  - exists x. split; [reflexivity|]. eapply nth_error_In. exact En.
  - apply nth_error_None in En. lia.
Qed.

Lemma array_get_out_of_range {A : Type} (arr : list A) (i : Z) :
  (i < 0 \/ Z.of_nat (List.length arr) <= i)%Z -> array_get arr i = None.
Proof.
  intros H. unfold array_get.
  destruct (i <? 0)%Z eqn:E; [reflexivity|].
  apply Z.ltb_ge in E. apply nth_error_None. lia.
Qed.

(** [Math.floor(Math.random() * n)] is an index of an array of length [n]. *)
Lemma random_index_in_range (rnd : Q) (n : nat) :
  0 <= rnd -> rnd < 1 -> (0 < n)%nat ->
  (0 <= Qfloor (rnd * inject_Z (Z.of_nat n)) < Z.of_nat n)%Z.
Proof.
  intros Hlo Hhi Hn.
  assert (Hn' : 0 < inject_Z (Z.of_nat n)).
  { change 0 with (inject_Z 0). rewrite <- Zlt_Qlt. lia. }
  split.
  - change 0%Z with (Qfloor 0). apply Qfloor_resp_le. nra.
  - rewrite Zlt_Qlt. eapply Qle_lt_trans; [apply Qfloor_le|]. nra.
Qed.

Lemma randomReward_in_rewards (rnd : Q) :
  0 <= rnd -> rnd < 1 ->
  exists m, randomReward rnd = Some m /\ In m rewards.
Proof.
  intros Hlo Hhi. unfold randomReward. apply array_get_in_range.
  apply random_index_in_range; [assumption|assumption|simpl; lia].
Qed.

(** C6: a spin that passes the gate of [handleSpinRoulette] arms the timer
    with the render's player.  When the timer fires, in whatever state [s1]
    it is still pending, at [Date.now() = now] and with [Math.random() = rnd]
    in [[0, 1)], one multiplier [m] of [rewards] is drawn,
    [potential = clickEarnings * 20 + secEarnings * 100] is computed for the
    job and the purchases of that render, and [potential * m] is added to
    [money] and to [totalMoneyEarned] while [lastSpinTime] becomes [now];
    nothing else of the player changes.  With both earnings [1] and the
    multiplier [1] the amount is [120]. *)
Theorem spin_credits_potential_times_multiplier
    (JOBS : list Job) (s s1 : AppState) (job : Job) (now rnd : Q) :
  Qgt_bool (timeToNextSpin s) 0 = false ->
  isSpinning s = false ->
  currentJob JOBS (player s) = Some job ->
  spinTimeout s1 = spinTimeout (handleSpinRoulette s) ->
  0 <= rnd -> rnd < 1 ->
  let click := clickEarnings job (purchasedUpgrades (player s)) in
  let sec := perSecondEarnings job (purchasedUpgrades (player s)) in
  let potential := click * 20 + sec * 100 in
  isSpinning (handleSpinRoulette s) = true
  /\ player (handleSpinRoulette s) = player s
  /\ spinTimeout (handleSpinRoulette s) = Some (player s)
  /\ exists m s',
       In m rewards
       /\ randomReward rnd = Some m
       /\ spinTimeoutFires JOBS now rnd s1 = Some (s', [RouletteWin])
       /\ money (player s') = money (player s1) + potential * m
       /\ totalMoneyEarned (player s')
          = totalMoneyEarned (player s1) + potential * m
       /\ lastSpinTime (player s') = now
       /\ currentJobIndex (player s') = currentJobIndex (player s1)
       /\ purchasedUpgrades (player s') = purchasedUpgrades (player s1)
       /\ unlockedJobs (player s') = unlockedJobs (player s1)
       /\ isSpinning s' = false
       /\ spinTimeout s' = None
       /\ (click == 1 -> sec == 1 -> m == 1 -> potential * m == 120).
Proof.
  intros Hgate Hspin Hjob Hpending Hlo Hhi click sec potential.
  assert (Harmed : handleSpinRoulette s
            = {| gameState := gameState s; player := player s;
                 isRouletteOpen := isRouletteOpen s; isSpinning := true;
                 timeToNextSpin := timeToNextSpin s;
                 spinTimeout := Some (player s) |}).
  { unfold handleSpinRoulette. rewrite Hgate, Hspin. reflexivity. }
  rewrite Harmed in Hpending. simpl in Hpending.
  split; [rewrite Harmed; reflexivity|].
  split; [rewrite Harmed; reflexivity|].
  split; [rewrite Harmed; reflexivity|].
  destruct (randomReward_in_rewards rnd Hlo Hhi) as [m [Hm Hin]].
  exists m.
  eexists. split; [exact Hin|]. split; [exact Hm|].
  split.
  { unfold spinTimeoutFires. rewrite Hpending.
    rewrite Hjob. simpl. rewrite Hm. reflexivity. }
  simpl. repeat split; try reflexivity.
  intros Hc Hs H1. unfold potential. rewrite Hc, Hs, H1. reflexivity.
Qed.

Lemma spin_credits_potential_times_multiplier_witness :
  exists m s',
    In m rewards
    /\ randomReward (1 # 2) = Some m
    /\ spinTimeoutFires sampleJobs 600000 (1 # 2)
         (handleSpinRoulette (atWork 0)) = Some (s', [RouletteWin])
    /\ money (player s') == 120
    /\ totalMoneyEarned (player s') == 120
    /\ lastSpinTime (player s') = 600000.
Proof.
  destruct (spin_credits_potential_times_multiplier
              sampleJobs (atWork 0) (handleSpinRoulette (atWork 0))
              intern 600000 (1 # 2))
    as [_ [_ [_ [m [s' [Hin [Hm [Hfire [Hmoney [Htotal [Hlast _]]]]]]]]]]].
  - reflexivity.
  - reflexivity.
  - reflexivity.
  - reflexivity.
  - lra.
  - lra.
  - exists m, s'. split; [exact Hin|]. split; [exact Hm|].
    split; [exact Hfire|].
    assert (E : m = 1) by (vm_compute in Hm; congruence).
    split; [rewrite Hmoney, E; reflexivity|].
    split; [rewrite Htotal, E; reflexivity|]. exact Hlast.
Defined.

(** ** Loading the saved player *)

Lemma get_set_prop_same key v o : get_prop key (set_prop key v o) = Some v.
Proof.
  induction o as [|[k w] o IH]; simpl.
  - rewrite String.eqb_refl. reflexivity.
  - destruct (String.eqb k key) eqn:E; simpl; rewrite E; auto.
Qed.

Lemma get_set_prop_other key key' v o :
  key' <> key -> get_prop key' (set_prop key v o) = get_prop key' o.
Proof.
  intros Hne. induction o as [|[k w] o IH]; simpl.
  - destruct (String.eqb key key') eqn:E; [|reflexivity].
    apply String.eqb_eq in E. congruence.
  - destruct (String.eqb k key) eqn:E; simpl.
    + apply String.eqb_eq in E. subst k.
      destruct (String.eqb key key') eqn:E'; [|reflexivity].
      apply String.eqb_eq in E'. congruence.
    + rewrite IH. reflexivity.
Qed.

Lemma as_int_inject_Z i : as_int (inject_Z i) = Some i.
Proof.
  unfold as_int. rewrite Qfloor_Z. rewrite Qeq_bool_refl. reflexivity.
Qed.

Lemma as_strings_map l : as_strings (map JStr l) = Some l.
Proof. induction l as [|x l IH]; simpl; [|rewrite IH]; reflexivity. Qed.

Lemma as_indices_map l :
  as_indices (map (fun i => JNum (inject_Z i)) l) = Some l.
Proof.
  induction l as [|x l IH]; simpl; [reflexivity|].
  rewrite as_int_inject_Z, IH. reflexivity.
Qed.

Lemma asPlayerState_fresh : asPlayerState freshObject = Some freshPlayer.
Proof. reflexivity. Qed.

(** The reading of an object that has the six fields of a player, whatever
    the value of the last. *)
Lemma asPlayerState_with_spin p t :
  asPlayerState (set_prop "lastSpinTime" (JNum t) (legacyObject p))
  = Some (setLastSpinTime t p)
  /\ asPlayerState (set_prop "lastSpinTime" (JNum t) (playerObject p))
  = Some (setLastSpinTime t p).
Proof.
  split; unfold asPlayerState; simpl;
    rewrite as_int_inject_Z, as_strings_map, as_indices_map; reflexivity.
Qed.

Lemma loadPlayer_parsed parse str v :
  str <> ""%string -> parse str = Normal v ->
  loadPlayer parse (Some str)
  = match get_member v "lastSpinTime" with
    | Normal m => set_prop "lastSpinTime" (or_else m (JNum 0)) (spread v)
    | Throw _ => freshObject
    end.
Proof.
  intros Hne Hp. unfold loadPlayer, loadTry.
  destruct (String.eqb str "") eqn:E.
  - apply String.eqb_eq in E. contradiction.
  - rewrite Hp. destruct (get_member v "lastSpinTime"); reflexivity.
Qed.

(** C8, as the code has it: the initializer always returns an object.
    Without a stored text, with an empty one, with one that [JSON.parse]
    rejects, with the text [null], and in general whenever the [try] block
    throws, it returns the fresh player (money 0, total 0, job 0, no
    upgrade, job 0 unlocked, never spun).  A stored player without the field
    [lastSpinTime] is loaded with every other field as stored and
    [lastSpinTime = 0].  A text that parses to any other value than [null]
    is not checked: the value is spread as it is, with its truthy
    [lastSpinTime] or [0]. *)
Theorem load_falls_back_or_spreads (parse : string -> Completion JSValue) :
  loadPlayer parse None = freshObject
  /\ loadPlayer parse (Some ""%string) = freshObject
  /\ (forall text e, parse text = Throw e ->
        loadPlayer parse (Some text) = freshObject)
  /\ (forall text, parse text = Normal JNull ->
        loadPlayer parse (Some text) = freshObject)
  /\ (forall text e, loadTry parse text = Throw e ->
        loadPlayer parse (Some text) = freshObject)
  /\ asPlayerState freshObject = Some freshPlayer
  /\ (forall text fields,
        text <> ""%string -> parse text = Normal (JObj fields) ->
        get_prop "lastSpinTime" fields = None ->
        get_prop "lastSpinTime" (loadPlayer parse (Some text))
          = Some (JNum 0)
        /\ forall key, key <> "lastSpinTime"%string ->
             get_prop key (loadPlayer parse (Some text))
               = get_prop key fields)
  /\ (forall text p,
        text <> ""%string -> parse text = Normal (JObj (legacyObject p)) ->
        asPlayerState (loadPlayer parse (Some text))
          = Some (setLastSpinTime 0 p))
  /\ (forall text v,
        text <> ""%string -> parse text = Normal v -> v <> JNull ->
        exists m,
          get_member v "lastSpinTime" = Normal m
          /\ loadPlayer parse (Some text)
             = set_prop "lastSpinTime" (or_else m (JNum 0)) (spread v)).
Proof.
  assert (Hthrow : forall text e, loadTry parse text = Throw e ->
            loadPlayer parse (Some text) = freshObject).
  { intros text e H. unfold loadPlayer. rewrite H.
    destruct (String.eqb text ""); reflexivity. }
  split; [reflexivity|]. split; [reflexivity|].
  split.
  { intros text e H. apply (Hthrow text e). unfold loadTry.
    rewrite H. reflexivity. }
  split.
  { intros text H. apply (Hthrow text TypeError). unfold loadTry.
    rewrite H. reflexivity. }
  split; [exact Hthrow|]. split; [exact asPlayerState_fresh|].
  split; [|split].
  - intros text fields Hne Hp Hmiss.
    rewrite (loadPlayer_parsed parse text _ Hne Hp). simpl.
    rewrite Hmiss. simpl. split.
    + apply get_set_prop_same.
    + intros key Hk. apply get_set_prop_other. exact Hk.
  - intros text p Hne Hp.
    rewrite (loadPlayer_parsed parse text _ Hne Hp).
    apply (asPlayerState_with_spin p 0).
  - intros text v Hne Hp Hv.
    rewrite (loadPlayer_parsed parse text _ Hne Hp).
    destruct v; try contradiction; simpl; eexists; split; reflexivity.
Qed.

Lemma load_falls_back_or_spreads_witness :
  loadPlayer sampleParse (Some "{ not json"%string) = freshObject
  /\ loadPlayer sampleParse (Some "null"%string) = freshObject
  /\ asPlayerState
       (loadPlayer sampleParse (Some "<veteran, old format>"%string))
     = Some (setLastSpinTime 0 veteran)
  /\ exists m,
       get_member (JNum 42) "lastSpinTime" = Normal m
       /\ loadPlayer sampleParse (Some "42"%string)
          = set_prop "lastSpinTime" (or_else m (JNum 0)) (spread (JNum 42)).
Proof.
  destruct (load_falls_back_or_spreads sampleParse)
    as [_ [_ [Hsyntax [Hnull [_ [_ [_ [Hold Hany]]]]]]]].
  split; [apply (Hsyntax _ SyntaxError); reflexivity|].
  split; [apply Hnull; reflexivity|].
  split; [apply Hold; [discriminate | reflexivity]|].
  apply Hany; [discriminate | reflexivity | discriminate].
Defined.

(** C8, as stated, fails: a stored text that parses, but not to a player, is
    not replaced by the fresh player.  The empty object and the number 42
    are loaded as an object that has a [lastSpinTime] and nothing else: no
    [money], no [currentJobIndex], not a player. *)
Lemma parsed_garbage_is_not_reset :
  sampleParse "{}" = Normal (JObj [])
  /\ loadPlayer sampleParse (Some "{}"%string)
     = [("lastSpinTime"%string, JNum 0)]
  /\ loadPlayer sampleParse (Some "{}"%string) <> freshObject
  /\ get_prop "money" (loadPlayer sampleParse (Some "{}"%string)) = None
  /\ asPlayerState (loadPlayer sampleParse (Some "{}"%string)) = None
  /\ sampleParse "42" = Normal (JNum 42)
  /\ loadPlayer sampleParse (Some "42"%string) <> freshObject
  /\ asPlayerState (loadPlayer sampleParse (Some "42"%string)) = None.
Proof.
  repeat split; try reflexivity; discriminate.
Qed.

Lemma loadPlayer_stored parse text p :
  text <> ""%string -> parse text = Normal (JObj (playerObject p)) ->
  asPlayerState (loadPlayer parse (Some text))
  = Some (setLastSpinTime (loadedSpinTime (lastSpinTime p)) p).
Proof.
  intros Hne Hp. rewrite (loadPlayer_parsed parse text _ Hne Hp).
  simpl. unfold loadedSpinTime.
  destruct (Qeq_bool (lastSpinTime p) 0); simpl;
    apply asPlayerState_with_spin.
Qed.

(** C7, as the code has it: the initializer does not check
    [currentJobIndex].  A stored player whose index is outside the catalog
    is loaded with that index; [currentJob] is then undefined, computing the
    click earnings throws, and once the start button has moved the screen to
    [WORKING] the render throws, so that no event is served. *)
Theorem load_keeps_stray_index (JOBS : list Job)
    (parse : string -> Completion JSValue) (text : string)
    (p : PlayerState) :
  text <> ""%string ->
  parse text = Normal (JObj (playerObject p)) ->
  (currentJobIndex p < 0
   \/ Z.of_nat (List.length JOBS) <= currentJobIndex p)%Z ->
  exists p',
    asPlayerState (loadPlayer parse (Some text)) = Some p'
    /\ currentJobIndex p' = currentJobIndex p
    /\ currentJob JOBS p' = None
    /\ calculateClickEarnings (currentJob JOBS p') p' = None
    /\ dispatch JOBS (initialApp p') ClickStartCareer
       = Some (setGameState WORKING (initialApp p'), [PromotionSound])
    /\ forall e, dispatch JOBS (setGameState WORKING (initialApp p')) e = None.
Proof.
  intros Hne Hp Hout.
  exists (setLastSpinTime (loadedSpinTime (lastSpinTime p)) p).
  assert (Hjob : currentJob JOBS
                   (setLastSpinTime (loadedSpinTime (lastSpinTime p)) p)
                 = None).
  { unfold currentJob. simpl. apply array_get_out_of_range. exact Hout. }
  split; [apply loadPlayer_stored; assumption|].
  split; [reflexivity|]. split; [exact Hjob|].
  split; [rewrite Hjob; reflexivity|].
  split; [reflexivity|].
  intros e. unfold dispatch, renders. simpl. rewrite Hjob. reflexivity.
Qed.

Lemma load_keeps_stray_index_witness :
  exists p',
    asPlayerState (loadPlayer sampleParse (Some "<strayed>"%string)) = Some p'
    /\ currentJobIndex p' = 7%Z
    /\ currentJob sampleJobs p' = None
    /\ calculateClickEarnings (currentJob sampleJobs p') p' = None
    /\ dispatch sampleJobs (initialApp p') ClickStartCareer
       = Some (setGameState WORKING (initialApp p'), [PromotionSound])
    /\ forall e,
         dispatch sampleJobs (setGameState WORKING (initialApp p')) e = None.
Proof.
  apply (load_keeps_stray_index sampleJobs sampleParse
           "<strayed>"%string strayed).
  - discriminate.
  - reflexivity.
  - right. simpl. lia.
Defined.

(** C7, as stated, fails: the stray index is neither clamped nor reset to
    [0], and the next click on the working screen finds no job. *)
Lemma stray_index_is_not_reset :
  asPlayerState (loadPlayer sampleParse (Some "<strayed>"%string))
  = Some strayed
  /\ currentJobIndex strayed <> 0%Z
  /\ array_get sampleJobs (currentJobIndex strayed) = None
  /\ run sampleJobs (initialApp strayed) [ClickStartCareer]
     = Some (setGameState WORKING (initialApp strayed))
  /\ run sampleJobs (initialApp strayed) [ClickStartCareer; ClickWork] = None.
Proof.
  repeat split; try reflexivity. discriminate.
Qed.

(** ** Money along a run *)

Lemma array_get_In {A : Type} (arr : list A) (i : Z) (x : A) :
  array_get arr i = Some x -> In x arr.
Proof.
  unfold array_get. destruct (i <? 0)%Z; [discriminate|].
  apply nth_error_In.
Qed.

Lemma rewards_nonneg m : In m rewards -> 0 <= m.
Proof.
  unfold rewards. simpl.
  intros [H|[H|[H|[H|[H|[H|[H|[]]]]]]]]; subst; unfold Qle; simpl; lia.
Qed.

Lemma earns_same p p' :
  money p' = money p -> totalMoneyEarned p' = totalMoneyEarned p ->
  earns p p'.
Proof.
  intros Hm Ht. exists 0. rewrite Hm, Ht. repeat split; lra.
Qed.

Lemma purse_same p p' :
  money p' = money p -> totalMoneyEarned p' = totalMoneyEarned p ->
  purse_step p p'.
Proof. intros Hm Ht. apply purse_earns, earns_same; assumption. Qed.

Lemma earns_total_le p p' :
  earns p p' -> totalMoneyEarned p <= totalMoneyEarned p'.
Proof. intros [a [Ha [_ Ht]]]. lra. Qed.

(** From [Some r = Some (s', out)] to [s' = fst r]. *)
Ltac next_is_fst H :=
  match type of H with
  | Some ?r = Some (?s', _) =>
      let E := fresh "E" in
      assert (E : s' = fst r) by (injection H as H; rewrite H; reflexivity);
      subst s'; clear H
  end.

Ltac purse_unchanged :=
  split; [apply purse_same; reflexivity|];
  split; [intros; try discriminate; reflexivity|];
  right; simpl; lra.

Section Purse.

Variable JOBS : list Job.
Hypothesis JOBS_ok : catalog_ok JOBS.

Lemma currentJob_ok p job : currentJob JOBS p = Some job -> job_ok job.
Proof.
  intros H. apply array_get_In in H.
  unfold catalog_ok in JOBS_ok. rewrite Forall_forall in JOBS_ok.
  apply JOBS_ok. exact H.
Qed.

Lemma job_bonuses_nonneg job :
  job_ok job ->
  Forall (bonus_nonneg bonusClick) (upgrades job)
  /\ Forall (bonus_nonneg bonusSec) (upgrades job).
Proof.
  intros [_ [_ [_ H]]]. rewrite Forall_forall in H.
  split; apply Forall_forall; intros u Hu; apply (H u Hu).
Qed.

Lemma calculateClickEarnings_nonneg p snap c :
  calculateClickEarnings (currentJob JOBS p) snap = Some c -> 0 <= c.
Proof.
  unfold calculateClickEarnings.
  destruct (currentJob JOBS p) as [job|] eqn:E; [|discriminate].
  intros H. inversion H; subst. pose proof (currentJob_ok _ _ E) as Hok.
  apply earnings_of_nonneg; [apply Hok | apply job_bonuses_nonneg, Hok].
Qed.

Lemma calculateSecEarnings_nonneg p snap c :
  calculateSecEarnings (currentJob JOBS p) snap = Some c -> 0 <= c.
Proof.
  unfold calculateSecEarnings.
  destruct (currentJob JOBS p) as [job|] eqn:E; [|discriminate].
  intros H. inversion H; subst. pose proof (currentJob_ok _ _ E) as Hok.
  apply earnings_of_nonneg; [apply Hok | apply job_bonuses_nonneg, Hok].
Qed.

Lemma handleWorkClick_earns s s' out :
  handleWorkClick JOBS s = Some (s', out) ->
  earns (player s) (player s').
Proof.
  unfold handleWorkClick.
  destruct (calculateClickEarnings _ _) as [c|] eqn:E; [|discriminate].
  intros H. inversion H; subst.
  exists c. simpl. repeat split; try reflexivity.
  eapply calculateClickEarnings_nonneg. exact E.
Qed.

Lemma passiveIncomeTick_earns s s' out :
  passiveIncomeTick JOBS s = Some (s', out) ->
  earns (player s) (player s').
Proof.
  unfold passiveIncomeTick.
  destruct (negb _).
  - intros H. inversion H; subst. apply earns_same; reflexivity.
  - destruct (calculateSecEarnings _ _) as [c|] eqn:E; [|discriminate].
    destruct (Qgt_bool c 0) eqn:G; intros H; inversion H; subst.
    + exists c. simpl. repeat split; try reflexivity.
      apply Qgt_bool_iff in G. lra.
    + apply earns_same; reflexivity.
Qed.

Lemma spinTimeoutFires_earns now rnd s s' out :
  spinTimeoutFires JOBS now rnd s = Some (s', out) ->
  earns (player s) (player s').
Proof.
  unfold spinTimeoutFires.
  destruct (spinTimeout s) as [snap|].
  - destruct (calculateClickEarnings _ _) as [c|] eqn:Ec; [|discriminate].
    destruct (calculateSecEarnings _ _) as [e|] eqn:Es; [|discriminate].
    destruct (randomReward rnd) as [m|] eqn:Em; [|discriminate].
    intros H. inversion H; subst.
    apply calculateClickEarnings_nonneg in Ec.
    apply calculateSecEarnings_nonneg in Es.
    apply array_get_In, rewards_nonneg in Em.
    exists ((c * 20 + e * 100) * m). simpl.
    repeat split; try reflexivity. nra.
  - intros H. inversion H; subst. apply earns_same; reflexivity.
Qed.

Lemma upgradeButton_purse job k s :
  purse_step (player s) (player (fst (upgradeButton job k s)))
  /\ totalMoneyEarned (player (fst (upgradeButton job k s)))
     = totalMoneyEarned (player s).
Proof.
  unfold upgradeButton.
  destruct (nth_error (upgrades job) k) as [u|];
    [|split; [apply purse_same|]; reflexivity].
  destruct (includes_str _ _ || negb _);
    [split; [apply purse_same|]; reflexivity|].
  unfold buyUpgrade.
  destruct (Qge_bool (money (player s)) (cost u)) eqn:G; simpl;
    [|split; [apply purse_same|]; reflexivity].
  destruct (negb _); simpl; [|split; [apply purse_same|]; reflexivity].
  split; [|reflexivity].
  apply purse_pays. exists u. simpl. repeat split.
  apply Qge_bool_iff. exact G.
Qed.

(** Every step the application takes is a step of the purse; a click on an
    upgrade leaves [totalMoneyEarned] alone, and only the restart button of
    the end screen resets. *)
Lemma dispatch_purse s e s' out :
  dispatch JOBS s e = Some (s', out) ->
  purse_step (player s) (player s')
  /\ (forall k, e = ClickUpgrade k ->
        totalMoneyEarned (player s') = totalMoneyEarned (player s))
  /\ ((e = ClickRestart /\ gameState s = END /\ player s' = freshPlayer)
      \/ totalMoneyEarned (player s) <= totalMoneyEarned (player s')).
Proof.
  intros H.
  unfold dispatch in H. destruct (negb (renders JOBS s)); [discriminate|].
  destruct e.
  1-10: destruct (gameState s) eqn:G; simpl in H;
    try (destruct (currentJob JOBS (player s)) as [job|] eqn:Ej;
         [|discriminate]).
  all: try (inversion H; subst; clear H; purse_unchanged).
  - (* ClickWork *)
    apply handleWorkClick_earns in H. split; [apply purse_earns; exact H|].
    split; [discriminate|]. right. apply earns_total_le. exact H.
  - (* ClickCloseRoulette *)
    next_is_fst H. unfold closeRouletteButton, idle.
    destruct (_ && _); simpl; purse_unchanged.
  - (* ClickSpin *)
    next_is_fst H. unfold spinButton, handleSpinRoulette, idle.
    destruct (isRouletteOpen s); [destruct (_ || _)|]; simpl;
      purse_unchanged.
  - (* ClickUpgrade *)
    next_is_fst H. destruct (upgradeButton_purse job k s) as [Hp Ht].
    split; [exact Hp|]. split; [intros; exact Ht|]. right. rewrite Ht. lra.
  - (* ClickResign *)
    next_is_fst H. unfold resignButton, idle.
    destruct (isLastJob _ _); [|destruct (Qgt_bool _ _)]; simpl;
      purse_unchanged.
  - (* ClickConclude *)
    next_is_fst H. unfold concludeButton, idle.
    destruct (isLastJob _ _); simpl; purse_unchanged.
  - (* ClickStartJob *)
    next_is_fst H. unfold startJobButton, idle.
    destruct (nth_error JOBS idx); [destruct (_ || _)|]; simpl;
      purse_unchanged.
  - (* ClickRestart *)
    inversion H; subst; clear H.
    split; [apply purse_reset; reflexivity|].
    split; [discriminate|]. left. auto.
  - (* PassiveTick *)
    apply passiveIncomeTick_earns in H. split; [apply purse_earns; exact H|].
    split; [discriminate|]. right. apply earns_total_le. exact H.
  - (* SpinTimeout *)
    apply spinTimeoutFires_earns in H. split; [apply purse_earns; exact H|].
    split; [discriminate|]. right. apply earns_total_le. exact H.
Qed.

End Purse.

Lemma purse_step_nonneg p p' :
  purse_step p p' -> 0 <= money p -> 0 <= money p'.
Proof.
  intros [[a [Ha [Hm _]]] | [u [Hc [Hm _]]] | ->] Hp.
  - lra.
  - rewrite Hm. lra.
  - simpl. lra.
Qed.

Lemma run_money_nonneg (JOBS : list Job) :
  catalog_ok JOBS ->
  forall events s0 s,
    0 <= money (player s0) -> run JOBS s0 events = Some s ->
    0 <= money (player s).
Proof.
  intros Hok. induction events as [|e events IH]; intros s0 s H0 Hrun.
  - simpl in Hrun. inversion Hrun; subst. exact H0.
  - simpl in Hrun.
    destruct (dispatch JOBS s0 e) as [[s1 out]|] eqn:E; [|discriminate].
    apply (IH s1 s); [|exact Hrun].
    destruct (dispatch_purse JOBS Hok _ _ _ _ E) as [Hp _].
    apply (purse_step_nonneg _ _ Hp H0).
Qed.

Lemma sampleJobs_ok : catalog_ok sampleJobs.
Proof.
  unfold catalog_ok, sampleJobs, job_ok, upgrade_ok, bonus_nonneg,
    bonus_value.
  repeat constructor; simpl; lra.
Qed.

(** C2, as the code has it: with a catalog without negative rates, bonuses
    and costs, [money] is never negative in a run that starts with the fresh
    player, and every further step keeps it so.  A click on an upgrade
    leaves [totalMoneyEarned] as it is.  [totalMoneyEarned] does not
    decrease in a step, the restart on the end screen excepted, which puts
    the fresh player back. *)
Theorem money_nonneg_total_grows_until_restart
    (JOBS : list Job) (events : list Event) (s : AppState) :
  catalog_ok JOBS ->
  run JOBS (initialApp freshPlayer) events = Some s ->
  0 <= money (player s)
  /\ forall e s' out, dispatch JOBS s e = Some (s', out) ->
       0 <= money (player s')
       /\ (forall k, e = ClickUpgrade k ->
             totalMoneyEarned (player s') = totalMoneyEarned (player s))
       /\ ((e = ClickRestart /\ gameState s = END
            /\ player s' = freshPlayer)
           \/ totalMoneyEarned (player s) <= totalMoneyEarned (player s')).
Proof.
  intros Hok Hrun.
  assert (Hm : 0 <= money (player s)).
  { apply (run_money_nonneg JOBS Hok events (initialApp freshPlayer) s);
      [simpl; lra | exact Hrun]. }
  split; [exact Hm|].
  intros e s' out Hstep.
  destruct (dispatch_purse JOBS Hok _ _ _ _ Hstep) as [Hp [Hbuy Htot]].
  split; [apply (purse_step_nonneg _ _ Hp Hm)|].
  split; assumption.
Qed.

Lemma money_nonneg_total_grows_until_restart_witness :
  exists s,
    run sampleJobs (initialApp freshPlayer)
      [ClickStartCareer; ClickWork; ClickUpgrade 0] = Some s
    /\ 0 <= money (player s)
    /\ forall e s' out, dispatch sampleJobs s e = Some (s', out) ->
         0 <= money (player s')
         /\ (forall k, e = ClickUpgrade k ->
               totalMoneyEarned (player s') = totalMoneyEarned (player s))
         /\ ((e = ClickRestart /\ gameState s = END
              /\ player s' = freshPlayer)
             \/ totalMoneyEarned (player s)
                <= totalMoneyEarned (player s')).
Proof.
  eexists. split; [reflexivity|].
  apply (money_nonneg_total_grows_until_restart sampleJobs
           [ClickStartCareer; ClickWork; ClickUpgrade 0]).
  - exact sampleJobs_ok.
  - reflexivity.
Defined.

(** C2, as stated, fails: in a catalog of one job the player works once,
    concludes and restarts, and [totalMoneyEarned] falls from [1] to [0]. *)
Lemma restart_lowers_total :
  catalog_ok [intern]
  /\ exists s s',
       run [intern] (initialApp freshPlayer)
         [ClickStartCareer; ClickWork; ClickConclude] = Some s
       /\ dispatch [intern] s ClickRestart = Some (s', [PromotionSound])
       /\ totalMoneyEarned (player s) == 1
       /\ totalMoneyEarned (player s') == 0
       /\ ~ totalMoneyEarned (player s) <= totalMoneyEarned (player s').
Proof.
  split.
  - unfold catalog_ok, job_ok, upgrade_ok, bonus_nonneg, bonus_value.
    repeat constructor; simpl; lra.
  - eexists. eexists. split; [reflexivity|]. split; [reflexivity|].
    simpl. repeat split; try reflexivity.
    intros H. unfold Qle in H. simpl in H. lia.
Qed.

(** ** Changing the job *)

(** Opens the handler behind [H : ... = Some (s', out)] branch by branch. *)
Ltac open_step H :=
  unfold handleWorkClick, passiveIncomeTick, spinTimeoutFires,
    closeRouletteButton, spinButton, upgradeButton, resignButton,
    concludeButton, startJobButton, buyUpgrade, handleSpinRoulette,
    resign, startJob, restartGame, updateTimer, idle,
    calculateClickEarnings, calculateSecEarnings in H;
  repeat match type of H with
         | context [match ?x with _ => _ end] => destruct x eqn:?
         end;
  try discriminate H; inversion H; subst; clear H.



(** What [startJob] itself writes: the index and the screen, nothing
    else; it has no line that empties [purchasedUpgrades]. *)
Lemma startJob_frame (index : Z) (s : AppState) :
  currentJobIndex (player (fst (startJob index s))) = index
  /\ gameState (fst (startJob index s)) = WORKING
  /\ purchasedUpgrades (player (fst (startJob index s)))
     = purchasedUpgrades (player s)
  /\ unlockedJobs (player (fst (startJob index s)))
     = unlockedJobs (player s).
Proof. repeat split; reflexivity. Qed.



(** * Further properties *)

(** ** Every step is one of the transitions *)

Lemma armed_handleSpinRoulette s :
  Qgt_bool (timeToNextSpin s) 0 || isSpinning s = false ->
  handleSpinRoulette s = armed s.
Proof. intros H. unfold handleSpinRoulette. rewrite H. reflexivity. Qed.

Lemma dispatch_transition (JOBS : list Job) s e s' out :
  dispatch JOBS s e = Some (s', out) -> transition JOBS s s'.
Proof.
  unfold dispatch. destruct (renders JOBS s) eqn:R; simpl; [|discriminate].
  intros H. destruct e.
  1-10: destruct (gameState s) eqn:G; simpl in H;
    try (destruct (currentJob JOBS (player s)) as [job|] eqn:Ej;
         [|discriminate]).
  all: unfold idle in H.
  all: try (inversion H; subst; clear H; apply t_idle).
  - (* start *) inversion H; subst. apply t_start. exact G.
  - (* work *)
    unfold handleWorkClick, calculateClickEarnings in H. rewrite Ej in H.
    inversion H; subst. apply (t_click JOBS s job); assumption.
  - (* open *) inversion H; subst. apply (t_open JOBS s job); assumption.
  - (* close *)
    unfold closeRouletteButton, idle in H.
    destruct (isRouletteOpen s) eqn:Eo; simpl in H;
      [destruct (isSpinning s) eqn:Es; simpl in H|];
      inversion H; subst; try apply t_idle.
    apply (t_close JOBS s job); assumption.
  - (* spin *)
    unfold spinButton, idle in H.
    destruct (isRouletteOpen s) eqn:Eo;
      [destruct (Qgt_bool (timeToNextSpin s) 0 || isSpinning s) eqn:Eg|];
      inversion H; subst; try apply t_idle.
    rewrite (armed_handleSpinRoulette s Eg).
    apply orb_false_iff in Eg. destruct Eg as [Eg Es].
    apply Qgt_bool_false_iff in Eg.
    apply (t_spin JOBS s job); assumption.
  - (* upgrade *)
    unfold upgradeButton, idle in H.
    destruct (nth_error (upgrades job) k) as [u|] eqn:Eu;
      [|inversion H; subst; apply t_idle].
    destruct (includes_str (purchasedUpgrades (player s)) (upgradeId u)
              || negb (Qge_bool (money (player s)) (cost u))) eqn:Ed;
      inversion H as [H1]; [subst; apply t_idle|].
    assert (E : s' = fst (buyUpgrade u s)) by (rewrite H1; reflexivity).
    subst s'. apply (t_buy JOBS s job k u); try assumption.
    apply orb_false_iff in Ed. destruct Ed as [Ei Ea].
    apply negb_false_iff in Ea. apply Qge_bool_iff in Ea.
    split; [exact Ea|]. intros Hin. apply includes_str_In in Hin. congruence.
  - (* resign *)
    unfold resignButton, idle, isLastJob in H.
    destruct (currentJobIndex (player s) =? Z.of_nat (List.length JOBS) - 1)%Z
      eqn:El; [inversion H; subst; apply t_idle|].
    destruct (Qgt_bool (minMoneyToResign job) (money (player s))) eqn:Em;
      inversion H as [H1]; [subst; apply t_idle|].
    apply (t_resign JOBS s job); try assumption.
    + apply Z.eqb_neq. exact El.
    + apply Qgt_bool_false_iff. exact Em.
  - (* conclude *)
    unfold concludeButton, idle, isLastJob in H.
    destruct (currentJobIndex (player s) =? Z.of_nat (List.length JOBS) - 1)%Z
      eqn:El; inversion H; subst; [|apply t_idle].
    apply (t_conclude JOBS s job); try assumption.
    apply Z.eqb_eq. exact El.
  - (* start a job *)
    unfold startJobButton, idle in H.
    destruct (nth_error JOBS idx) as [job|] eqn:Ej;
      [|inversion H; subst; apply t_idle].
    destruct (negb (includes_Z (unlockedJobs (player s)) (Z.of_nat idx))
              || (currentJobIndex (player s) =? Z.of_nat idx)%Z) eqn:Ed;
      inversion H as [H1]; [subst; apply t_idle|].
    apply orb_false_iff in Ed. destruct Ed as [Eu Ec].
    apply negb_false_iff in Eu. apply includes_Z_In in Eu.
    apply Z.eqb_neq in Ec.
    apply (t_startJob JOBS s idx job); assumption.
  - (* restart *) inversion H; subst. apply t_restart. exact G.
  - (* passive income *)
    unfold passiveIncomeTick, calculateSecEarnings in H.
    destruct (gameState s) eqn:G; simpl in H;
      try (inversion H; subst; apply t_idle).
    destruct (currentJob JOBS (player s)) as [job|] eqn:Ej; [|discriminate].
    destruct (Qgt_bool (perSecondEarnings job (purchasedUpgrades (player s)))
                0) eqn:Eg; inversion H; subst; [|apply t_idle].
    apply Qgt_bool_iff in Eg. apply (t_tick JOBS s job); auto.
  - (* cooldown *) inversion H; subst. apply t_timer.
  - (* payout *)
    unfold spinTimeoutFires, calculateClickEarnings, calculateSecEarnings in H.
    destruct (spinTimeout s) as [snap|] eqn:Et;
      [|inversion H; subst; apply t_idle].
    destruct (currentJob JOBS snap) as [job|] eqn:Ej; [|discriminate].
    destruct (randomReward rnd) as [m|] eqn:Em; [|discriminate].
    inversion H; subst.
    apply (t_payout JOBS s now rnd snap job m); assumption.
Qed.

(** ** [Array.from(new Set(...))] *)

Lemma set_add_NoDup seen x : NoDup seen -> NoDup (set_add seen x).
Proof.
  intros H. unfold set_add. destruct (includes_Z seen x) eqn:E; [exact H|].
  apply NoDup_app; [exact H | repeat constructor; simpl; tauto |].
  intros y Hy [Hx|[]]. subst y.
  apply includes_Z_In in Hy. congruence.
Qed.

Lemma fold_set_add_NoDup l : forall seen,
  NoDup seen -> NoDup (fold_left set_add l seen).
Proof.
  induction l as [|x l IH]; intros seen H; simpl; [exact H|].
  apply IH, set_add_NoDup, H.
Qed.

Lemma array_from_set_NoDup l : NoDup (array_from_set l).
Proof. apply fold_set_add_NoDup. constructor. Qed.

(** A list without repetition goes through unchanged. *)
Lemma fold_set_add_fresh l : forall seen,
  NoDup (seen ++ l) -> fold_left set_add l seen = seen ++ l.
Proof.
  induction l as [|x l IH]; intros seen H; simpl.
  - rewrite app_nil_r. reflexivity.
  - assert (Hx : includes_Z seen x = false).
    { destruct (includes_Z seen x) eqn:E; [|reflexivity].
      apply includes_Z_In in E. apply NoDup_remove_2 in H.
      exfalso. apply H. apply in_or_app. left. exact E. }
    unfold set_add at 2. rewrite Hx.
    rewrite IH; rewrite <- app_assoc; simpl; [reflexivity | exact H].
Qed.

Lemma array_from_set_fixed l : NoDup l -> array_from_set l = l.
Proof.
  intros H. unfold array_from_set. apply (fold_set_add_fresh l []). exact H.
Qed.

Lemma array_from_set_again l x :
  In x l -> NoDup l -> array_from_set (l ++ [x]) = l.
Proof.
  intros Hin Hnd. unfold array_from_set. rewrite fold_left_app. simpl.
  change (fold_left set_add l []) with (array_from_set l).
  rewrite (array_from_set_fixed l Hnd). unfold set_add.
  apply includes_Z_In in Hin. rewrite Hin. reflexivity.
Qed.

(** X1: resigning a second time changes nothing more: the next job is
    unlocked once, and the state after two calls of [resign] is the state
    after one. *)
Theorem resign_twice (s : AppState) :
  fst (resign (fst (resign s))) = fst (resign s).
Proof.
  unfold resign, setPlayer, setGameState. simpl.
  set (l := array_from_set
              (unlockedJobs (player s) ++ [(currentJobIndex (player s) + 1)%Z])).
  assert (E : array_from_set (l ++ [(currentJobIndex (player s) + 1)%Z]) = l).
  { apply array_from_set_again.
    - unfold l. apply array_from_set_In. apply in_or_app. right. left.
      reflexivity.
    - unfold l. apply array_from_set_NoDup. }
  rewrite E. reflexivity.
Qed.

(** ** The career stays sound *)

Lemma career_ok_frame (JOBS : list Job) s s' :
  career_ok JOBS s ->
  currentJobIndex (player s') = currentJobIndex (player s) ->
  unlockedJobs (player s') = unlockedJobs (player s) ->
  (forall snap, spinTimeout s' = Some snap ->
     spinTimeout s = Some snap \/ snap = player s) ->
  career_ok JOBS s'.
Proof.
  intros [Hc Hu Hr Hf Hl Hn Hs] Ei Eu Et.
  constructor; rewrite ?Ei, ?Eu; try assumption.
  intros snap Hsnap. destruct (Et snap Hsnap) as [H|H].
  - apply (Hs snap H).
  - subst snap. exact Hc.
Qed.

Lemma transition_career (JOBS : list Job) s s' :
  career_ok JOBS s -> transition JOBS s s' -> career_ok JOBS s'.
Proof.
  intros Hok Ht.
  destruct Ht;
    try (apply (career_ok_frame JOBS s); simpl; auto;
         intros snap Hsnap; try discriminate; auto; fail).
  - (* spin *)
    apply (career_ok_frame JOBS s); simpl; auto.
    intros snap Hsnap. inversion Hsnap. auto.
  - (* buy *)
    apply (career_ok_frame JOBS s); auto;
      unfold buyUpgrade; destruct (_ && _); simpl; auto.
  - (* resign *)
    destruct Hok as [Hc Hu Hr Hf Hl Hn Hs].
    assert (Hnext : in_catalog JOBS (currentJobIndex (player s) + 1)).
    { unfold in_catalog in *. lia. }
    constructor; simpl.
    + exact Hc.
    + apply array_from_set_In, in_or_app. left. exact Hu.
    + intros j Hj. apply array_from_set_In, in_app_or in Hj.
      destruct Hj as [Hj|[Hj|[]]]; [apply Hr, Hj | subst j; exact Hnext].
    + apply array_from_set_In, in_or_app. left. exact Hf.
    + intros j Hj. apply array_from_set_In, in_app_or in Hj.
      destruct Hj as [Hj|[Hj|[]]].
      * destruct (Hl j Hj) as [Hz|Hprev]; [left; exact Hz|].
        right. apply array_from_set_In, in_or_app. left. exact Hprev.
      * subst j. right. apply array_from_set_In, in_or_app. left.
        replace (currentJobIndex (player s) + 1 - 1)%Z
          with (currentJobIndex (player s)) by lia.
        exact Hu.
    + apply array_from_set_NoDup.
    + exact Hs.
  - (* start a job *)
    destruct Hok as [Hc Hu Hr Hf Hl Hn Hs].
    constructor; simpl; try assumption.
    apply Hr. assumption.
  - (* restart *)
    destruct Hok as [Hc Hu Hr Hf Hl Hn Hs].
    assert (Hzero : in_catalog JOBS 0) by (unfold in_catalog in *; lia).
    constructor; simpl; try assumption.
    + left. reflexivity.
    + intros j [Hj|[]]. subst j. exact Hzero.
    + left. reflexivity.
    + intros j [Hj|[]]. left. auto.
    + repeat constructor. simpl. tauto.
  - (* payout *)
    apply (career_ok_frame JOBS s); simpl; auto.
    intros snap' Hsnap. discriminate.
Qed.

Lemma run_career (JOBS : list Job) : forall events s0 s,
  career_ok JOBS s0 -> run JOBS s0 events = Some s -> career_ok JOBS s.
Proof.
  induction events as [|e events IH]; intros s0 s H0 Hrun; simpl in Hrun.
  - inversion Hrun; subst. exact H0.
  - destruct (dispatch JOBS s0 e) as [[s1 out]|] eqn:E; [|discriminate].
    apply (IH s1 s); [|exact Hrun].
    apply (transition_career JOBS s0 s1 H0).
    apply (dispatch_transition JOBS _ _ _ _ E).
Qed.

Lemma in_catalog_get {A : Type} (arr : list A) (i : Z) :
  (0 <= i < Z.of_nat (List.length arr))%Z ->
  exists x, array_get arr i = Some x.
Proof.
  intros H. destruct (array_get_in_range arr i H) as [x [Hx _]].
  exists x. exact Hx.
Qed.

Lemma served (r : AppState * list Sound) :
  exists s' out, Some r = Some (s', out).
Proof. destruct r as [s' out]. eauto. Qed.

(** With a sound career and a sane random number, every event is served. *)
Lemma dispatch_defined (JOBS : list Job) s e :
  career_ok JOBS s -> event_ok e ->
  exists s' out, dispatch JOBS s e = Some (s', out).
Proof.
  intros Hok He.
  destruct (in_catalog_get JOBS _ (career_current JOBS s Hok)) as [job Hjob].
  fold (currentJob JOBS (player s)) in Hjob.
  assert (Hpay : forall now rnd, 0 <= rnd /\ rnd < 1 ->
            exists s' out, spinTimeoutFires JOBS now rnd s = Some (s', out)).
  { intros now rnd [Hlo Hhi]. unfold spinTimeoutFires.
    destruct (spinTimeout s) as [snap|] eqn:Et; [|eauto].
    destruct (in_catalog_get JOBS _ (career_snapshot JOBS s Hok snap Et))
      as [sjob Hsjob].
    fold (currentJob JOBS snap) in Hsjob.
    unfold calculateClickEarnings, calculateSecEarnings. rewrite Hsjob.
    destruct (randomReward_in_rewards rnd Hlo Hhi) as [m [Hm _]].
    rewrite Hm. eauto. }
  unfold dispatch, renders. rewrite Hjob.
  destruct e; destruct (gameState s) eqn:G; simpl;
    try solve [apply served]; try solve [apply Hpay; exact He].
  - unfold handleWorkClick, calculateClickEarnings. rewrite Hjob.
    apply served.
  - unfold passiveIncomeTick. rewrite G. apply served.
  - unfold passiveIncomeTick, calculateSecEarnings. rewrite G, Hjob. simpl.
    destruct (Qgt_bool _ 0); apply served.
  - unfold passiveIncomeTick. rewrite G. apply served.
  - unfold passiveIncomeTick. rewrite G. apply served.
Qed.

Lemma fresh_career_ok (JOBS : list Job) :
  JOBS <> [] -> career_ok JOBS (initialApp freshPlayer).
Proof.
  intros Hne.
  assert (H0 : in_catalog JOBS 0).
  { unfold in_catalog. destruct JOBS; [contradiction|]. simpl. lia. }
  constructor; simpl.
  - exact H0.
  - left. reflexivity.
  - intros j [Hj|[]]. subst j. exact H0.
  - left. reflexivity.
  - intros j [Hj|[]]. left. auto.
  - repeat constructor. simpl. tauto.
  - discriminate.
Qed.

(** X2: from a player whose career is sound (the fresh player of a non-empty
    catalog is one), every state of a run has a sound career: the current
    job exists and is unlocked, every unlocked job exists, job 0 is
    unlocked, jobs are unlocked in order and listed once. *)
Theorem career_stays_sound
    (JOBS : list Job) (p : PlayerState) (events : list Event)
    (s : AppState) :
  career_ok JOBS (initialApp p) ->
  run JOBS (initialApp p) events = Some s ->
  career_ok JOBS s
  /\ exists job, currentJob JOBS (player s) = Some job.
Proof.
  intros H0 Hrun.
  assert (Hok : career_ok JOBS s) by (apply (run_career JOBS events _ _ H0 Hrun)).
  split; [exact Hok|].
  apply (in_catalog_get JOBS _ (career_current JOBS s Hok)).
Qed.

Lemma career_stays_sound_witness :
  exists s,
    run sampleJobs (initialApp (withMoney 110 freshPlayer))
      [ClickStartCareer; ClickUpgrade 0; ClickResign; ClickStartJob 1]
    = Some s
    /\ career_ok sampleJobs s
    /\ exists job, currentJob sampleJobs (player s) = Some job.
Proof.
  eexists. split; [reflexivity|].
  apply (career_stays_sound sampleJobs (withMoney 110 freshPlayer)
           [ClickStartCareer; ClickUpgrade 0; ClickResign; ClickStartJob 1]).
  - apply (career_ok_frame sampleJobs (initialApp freshPlayer));
      [apply fresh_career_ok; discriminate | reflexivity | reflexivity |].
    simpl. discriminate.
  - reflexivity.
Defined.

(** X3: from a player whose career is sound, no sequence of events faults,
    as long as [Math.random()] stays in [[0, 1)]: the run reaches a
    state. *)
Theorem run_never_faults
    (JOBS : list Job) (p : PlayerState) (events : list Event) :
  career_ok JOBS (initialApp p) ->
  Forall event_ok events ->
  exists s, run JOBS (initialApp p) events = Some s.
Proof.
  generalize (initialApp p). intros s0 H0 Hev. revert s0 H0.
  induction Hev as [|e events He Hev IH]; intros s0 H0; simpl.
  - eauto.
  - destruct (dispatch_defined JOBS s0 e H0 He) as [s1 [out E]].
    rewrite E. apply IH.
    apply (transition_career JOBS s0 s1 H0).
    apply (dispatch_transition JOBS _ _ _ _ E).
Qed.

Lemma run_never_faults_witness :
  exists s,
    run sampleJobs (initialApp freshPlayer)
      [ClickStartCareer; ClickWork; ClickOpenRoulette; ClickSpin;
       PassiveTick; SpinTimeout 4000 (6 # 7); ClickResign] = Some s.
Proof.
  apply (run_never_faults sampleJobs freshPlayer).
  - apply fresh_career_ok. discriminate.
  - repeat constructor; simpl; lra.
Defined.

(** ** The screens *)

(** X4: a step changes the screen along five edges only.  [START] leads to
    [WORKING]; [WORKING] leads to [CHOOSE_JOB], with the resign threshold met
    on a job that is not the last, and to [END], on the last job;
    [CHOOSE_JOB] leads to [WORKING] on an unlocked job of the catalog other
    than the current one; [END] leads to [START] with the fresh player. *)
Theorem ledger_state_machine (JOBS : list Job) s e s' out :
  dispatch JOBS s e = Some (s', out) ->
  gameState s' = gameState s
  \/ (gameState s = START /\ gameState s' = WORKING /\ player s' = player s)
  \/ (gameState s = WORKING /\ gameState s' = CHOOSE_JOB
      /\ currentJobIndex (player s) <> (Z.of_nat (List.length JOBS) - 1)%Z
      /\ exists job, currentJob JOBS (player s) = Some job
           /\ minMoneyToResign job <= money (player s))
  \/ (gameState s = WORKING /\ gameState s' = END
      /\ currentJobIndex (player s) = (Z.of_nat (List.length JOBS) - 1)%Z
      /\ player s' = player s)
  \/ (gameState s = CHOOSE_JOB /\ gameState s' = WORKING
      /\ In (currentJobIndex (player s')) (unlockedJobs (player s))
      /\ in_catalog JOBS (currentJobIndex (player s'))
      /\ currentJobIndex (player s') <> currentJobIndex (player s))
  \/ (gameState s = END /\ gameState s' = START /\ player s' = freshPlayer).
Proof.
  intros H. apply dispatch_transition in H.
  destruct H; try (left; reflexivity).
  - right. left. auto.
  - left. unfold buyUpgrade. destruct (_ && _); reflexivity.
  - right. right. left. simpl. repeat split; try assumption.
    exists job. auto.
  - right. right. right. left. auto.
  - right. right. right. right. left. simpl.
    repeat split; try assumption.
    + lia.
    + apply Nat2Z.inj_lt. apply nth_error_Some. congruence.
    + congruence.
  - right. right. right. right. right. auto.
Qed.

Lemma ledger_state_machine_witness :
  gameState (atWork 100) = WORKING
  /\ gameState (fst (resign (atWork 100))) = CHOOSE_JOB
  /\ currentJobIndex (player (atWork 100))
     <> (Z.of_nat (List.length sampleJobs) - 1)%Z
  /\ exists job, currentJob sampleJobs (player (atWork 100)) = Some job
       /\ minMoneyToResign job <= money (player (atWork 100)).
Proof.
  destruct (ledger_state_machine sampleJobs (atWork 100) ClickResign
              (fst (resign (atWork 100))) [PromotionSound] eq_refl)
    as [H|[H|[H|[H|[H|H]]]]];
    try (exfalso; simpl in H; intuition discriminate).
  exact H.
Defined.

(** ** The inventory stays sound *)

Lemma buyUpgrade_bought u s :
  purchasable u (player s) ->
  fst (buyUpgrade u s)
  = setPlayer (fun prev =>
      {| money := money prev - cost u;
         totalMoneyEarned := totalMoneyEarned prev;
         currentJobIndex := currentJobIndex prev;
         purchasedUpgrades := purchasedUpgrades prev ++ [upgradeId u];
         unlockedJobs := unlockedJobs prev;
         lastSpinTime := lastSpinTime prev |}) s.
Proof.
  intros H. apply purchasable_guard in H. unfold buyUpgrade. rewrite H.
  reflexivity.
Qed.

Lemma owns_from_frame (JOBS : list Job) p p' :
  owns_from JOBS p ->
  currentJobIndex p' = currentJobIndex p ->
  purchasedUpgrades p' = purchasedUpgrades p ->
  owns_from JOBS p'.
Proof.
  intros [Hnd Hin] Ei Ep. unfold owns_from, currentJob in *.
  rewrite Ei, Ep. split; assumption.
Qed.

Lemma owns_nothing (JOBS : list Job) p :
  purchasedUpgrades p = [] -> owns_from JOBS p.
Proof.
  intros E. unfold owns_from. rewrite E. split; [constructor|].
  intros job _ x [].
Qed.

Lemma transition_inventory (JOBS : list Job) s s' :
  inventory_ok JOBS s -> transition JOBS s s' -> inventory_ok JOBS s'.
Proof.
  intros [Hscreen Howns] Ht. unfold inventory_ok, contract_screen_empty in *.
  destruct Ht;
    try (split; [simpl; intros; try congruence; auto
                | apply (owns_from_frame JOBS (player s)); auto]; fail).
  - (* buy *)
    rewrite (buyUpgrade_bought u s H2). simpl.
    split; [intros; congruence|].
    destruct Howns as [Hnd Hin]. destruct H2 as [_ Hnew].
    split; simpl.
    + apply NoDup_app; [exact Hnd | repeat constructor; simpl; tauto |].
      intros x Hx [E|[]]. subst x. contradiction.
    + intros job' Hjob'. unfold currentJob in *. simpl in Hjob'.
      rewrite H0 in Hjob'. inversion Hjob'; subst job'.
      intros x Hx. apply in_app_or in Hx. destruct Hx as [Hx|[Hx|[]]].
      * apply (Hin job H0 x Hx).
      * subst x. apply in_map. eapply nth_error_In. exact H1.
  - (* resign *)
    split; [reflexivity | apply owns_nothing; reflexivity].
  - (* start a job *)
    split; [simpl; intros; congruence|].
    apply owns_nothing. simpl. apply Hscreen. assumption.
  - (* restart *)
    split; [reflexivity | apply owns_nothing; reflexivity].
Qed.

Lemma run_inventory (JOBS : list Job) : forall events s0 s,
  inventory_ok JOBS s0 -> run JOBS s0 events = Some s -> inventory_ok JOBS s.
Proof.
  induction events as [|e events IH]; intros s0 s H0 Hrun; simpl in Hrun.
  - inversion Hrun; subst. exact H0.
  - destruct (dispatch JOBS s0 e) as [[s1 out]|] eqn:E; [|discriminate].
    apply (IH s1 s); [|exact Hrun].
    apply (transition_inventory JOBS s0 s1 H0).
    apply (dispatch_transition JOBS _ _ _ _ E).
Qed.

Lemma initial_inventory (JOBS : list Job) p :
  owns_from JOBS p -> inventory_ok JOBS (initialApp p).
Proof.
  intros H. split; [|exact H].
  unfold contract_screen_empty. simpl. discriminate.
Qed.

(** X5: from a player who owns upgrades of the current job only, each once
    (the fresh player owns none), every state of a run is so; the number of
    owned upgrades never exceeds the number of upgrades the current job
    offers. *)
Theorem inventory_stays_sound
    (JOBS : list Job) (p : PlayerState) (events : list Event)
    (s : AppState) :
  owns_from JOBS p ->
  run JOBS (initialApp p) events = Some s ->
  NoDup (purchasedUpgrades (player s))
  /\ forall job, currentJob JOBS (player s) = Some job ->
       incl (purchasedUpgrades (player s)) (map upgradeId (upgrades job))
       /\ (List.length (purchasedUpgrades (player s))
           <= List.length (upgrades job))%nat.
Proof.
  intros H0 Hrun.
  destruct (run_inventory JOBS events _ _ (initial_inventory JOBS p H0) Hrun)
    as [_ [Hnd Hin]].
  split; [exact Hnd|]. intros job Hjob. split; [apply (Hin job Hjob)|].
  rewrite <- (length_map upgradeId (upgrades job)).
  apply NoDup_incl_length; [exact Hnd | apply (Hin job Hjob)].
Qed.

Lemma inventory_stays_sound_witness :
  exists s,
    run sampleJobs (initialApp (withMoney 70 freshPlayer))
      [ClickStartCareer; ClickUpgrade 1; ClickUpgrade 0; ClickUpgrade 0]
    = Some s
    /\ NoDup (purchasedUpgrades (player s))
    /\ forall job, currentJob sampleJobs (player s) = Some job ->
         incl (purchasedUpgrades (player s)) (map upgradeId (upgrades job))
         /\ (List.length (purchasedUpgrades (player s))
             <= List.length (upgrades job))%nat.
Proof.
  eexists. split; [reflexivity|].
  apply (inventory_stays_sound sampleJobs (withMoney 70 freshPlayer)
           [ClickStartCareer; ClickUpgrade 1; ClickUpgrade 0; ClickUpgrade 0]).
  - apply owns_nothing. reflexivity.
  - reflexivity.
Defined.




(** ** Money *)

Lemma upgrade_cost_nonneg (JOBS : list Job) p job k u :
  catalog_ok JOBS -> currentJob JOBS p = Some job ->
  nth_error (upgrades job) k = Some u -> 0 <= cost u.
Proof.
  intros Hok Hjob Hu. apply array_get_In in Hjob. apply nth_error_In in Hu.
  unfold catalog_ok in Hok. rewrite Forall_forall in Hok.
  destruct (Hok job Hjob) as [_ [_ [_ Hups]]].
  rewrite Forall_forall in Hups. apply (Hups u Hu).
Qed.

Lemma transition_balance (JOBS : list Job) s s' :
  catalog_ok JOBS ->
  money (player s) <= totalMoneyEarned (player s) ->
  transition JOBS s s' ->
  money (player s') <= totalMoneyEarned (player s').
Proof.
  intros Hok Hle Ht. destruct Ht; simpl; try lra.
  rewrite (buyUpgrade_bought u s H2). simpl.
  pose proof (upgrade_cost_nonneg JOBS _ job k u Hok H0 H1). lra.
Qed.

Lemma run_balance (JOBS : list Job) :
  catalog_ok JOBS ->
  forall events s0 s,
    money (player s0) <= totalMoneyEarned (player s0) ->
    run JOBS s0 events = Some s ->
    money (player s) <= totalMoneyEarned (player s).
Proof.
  intros Hok. induction events as [|e events IH]; intros s0 s H0 Hrun;
    simpl in Hrun.
  - inversion Hrun; subst. exact H0.
  - destruct (dispatch JOBS s0 e) as [[s1 out]|] eqn:E; [|discriminate].
    apply (IH s1 s); [|exact Hrun].
    apply (transition_balance JOBS s0 s1 Hok H0).
    apply (dispatch_transition JOBS _ _ _ _ E).
Qed.

(** X7: [money] never exceeds [totalMoneyEarned]: in a catalog without
    negative costs, a run that starts with [money <= totalMoneyEarned] (the
    fresh player has both at 0) keeps it so in every state. *)
Theorem money_below_total
    (JOBS : list Job) (p : PlayerState) (events : list Event)
    (s : AppState) :
  catalog_ok JOBS ->
  money p <= totalMoneyEarned p ->
  run JOBS (initialApp p) events = Some s ->
  money (player s) <= totalMoneyEarned (player s).
Proof.
  intros Hok H0 Hrun.
  apply (run_balance JOBS Hok events (initialApp p) s); assumption.
Qed.

Lemma money_below_total_witness :
  exists s,
    run sampleJobs (initialApp freshPlayer)
      [ClickStartCareer; ClickWork; ClickWork; PassiveTick] = Some s
    /\ money (player s) <= totalMoneyEarned (player s).
Proof.
  eexists. split; [reflexivity|].
  apply (money_below_total sampleJobs freshPlayer
           [ClickStartCareer; ClickWork; ClickWork; PassiveTick]).
  - exact sampleJobs_ok.
  - simpl. lra.
  - reflexivity.
Defined.

(** ** The roulette, step after step *)

Lemma transition_spin_flag (JOBS : list Job) s s' :
  spin_flag_ok s -> transition JOBS s s' -> spin_flag_ok s'.
Proof.
  unfold spin_flag_ok. intros H Ht.
  destruct Ht; simpl; try exact H.
  - split; [discriminate | reflexivity].
  - unfold buyUpgrade. destruct (_ && _); exact H.
  - split; [discriminate | intros Hn; contradiction].
Qed.

Lemma run_spin_flag (JOBS : list Job) : forall events s0 s,
  spin_flag_ok s0 -> run JOBS s0 events = Some s -> spin_flag_ok s.
Proof.
  induction events as [|e events IH]; intros s0 s H0 Hrun; simpl in Hrun.
  - inversion Hrun; subst. exact H0.
  - destruct (dispatch JOBS s0 e) as [[s1 out]|] eqn:E; [|discriminate].
    apply (IH s1 s); [|exact Hrun].
    apply (transition_spin_flag JOBS s0 s1 H0).
    apply (dispatch_transition JOBS _ _ _ _ E).
Qed.

(** X8: at most one spin is in flight.  In every state of a run the flag
    [isSpinning] is set exactly while the roulette's timeout is pending, and
    while it is pending neither [handleSpinRoulette] nor a click on the spin
    button changes anything. *)
Theorem one_spin_at_a_time
    (JOBS : list Job) (p : PlayerState) (events : list Event)
    (s : AppState) :
  run JOBS (initialApp p) events = Some s ->
  (isSpinning s = true <-> spinTimeout s <> None)
  /\ (spinTimeout s <> None ->
      handleSpinRoulette s = s
      /\ (forall s' out, dispatch JOBS s ClickSpin = Some (s', out) ->
            s' = s /\ out = [])
      /\ (forall s' out,
            dispatch JOBS s ClickCloseRoulette = Some (s', out) ->
            s' = s /\ out = [])).
Proof.
  intros Hrun.
  assert (Hflag : spin_flag_ok s).
  { apply (run_spin_flag JOBS events (initialApp p) s); [|exact Hrun].
    unfold spin_flag_ok. simpl. split; [discriminate | intros H; contradiction]. }
  split; [exact Hflag|].
  intros Hpending. apply Hflag in Hpending.
  assert (Hgate : Qgt_bool (timeToNextSpin s) 0 || isSpinning s = true).
  { rewrite Hpending. apply orb_true_r. }
  split; [|split].
  - unfold handleSpinRoulette. rewrite Hgate. reflexivity.
  - intros s' out H. unfold dispatch in H.
    destruct (negb (renders JOBS s)); [discriminate|].
    destruct (gameState s); simpl in H;
      try (destruct (currentJob JOBS (player s)); [|discriminate]);
      unfold spinButton, idle in H; rewrite ?Hgate in H;
      try destruct (isRouletteOpen s);
      inversion H; subst; split; reflexivity.
  - intros s' out H. unfold dispatch in H.
    destruct (negb (renders JOBS s)); [discriminate|].
    destruct (gameState s); simpl in H;
      try (destruct (currentJob JOBS (player s)); [|discriminate]);
      unfold closeRouletteButton, idle in H; rewrite ?Hpending in H;
      rewrite ?andb_false_r in H;
      inversion H; subst; split; reflexivity.
Qed.

Lemma one_spin_at_a_time_witness :
  exists s,
    run sampleJobs (initialApp freshPlayer)
      [ClickStartCareer; ClickOpenRoulette; ClickSpin; ClickWork] = Some s
    /\ isSpinning s = true
    /\ handleSpinRoulette s = s
    /\ dispatch sampleJobs s ClickSpin = Some (s, []).
Proof.
  eexists. split; [reflexivity|].
  destruct (one_spin_at_a_time sampleJobs freshPlayer
              [ClickStartCareer; ClickOpenRoulette; ClickSpin; ClickWork]
              _ eq_refl) as [Hflag Hbusy].
  assert (Hp : spinTimeout
                 {| gameState := WORKING;
                    player := credit (clickEarnings intern []) freshPlayer;
                    isRouletteOpen := true; isSpinning := true;
                    timeToNextSpin := 0;
                    spinTimeout := Some freshPlayer |} <> None)
    by discriminate.
  split; [apply Hflag; exact Hp|].
  split; [apply (Hbusy Hp) | reflexivity].
Defined.

Lemma remaining_positive (now last : Q) :
  now < last + ROULETTE_COOLDOWN ->
  0 < Qmax 0 (ROULETTE_COOLDOWN - (now - last)).
Proof.
  intros H.
  destruct (Q.max_spec 0 (ROULETTE_COOLDOWN - (now - last))) as [[_ E]|[Hle _]];
    [rewrite E|]; lra.
Qed.

Lemma remaining_zero (now last : Q) :
  last + ROULETTE_COOLDOWN <= now ->
  Qmax 0 (ROULETTE_COOLDOWN - (now - last)) == 0.
Proof.
  intros H.
  destruct (Q.max_spec 0 (ROULETTE_COOLDOWN - (now - last))) as [[Hlt _]|[_ E]];
    [lra | exact E].
Qed.

(** X10: the cooldown.  After a payout at [now], once the cooldown timer has
    run at a time before [now + 600000], the time to the next spin is
    positive and a click on the spin button changes nothing; once it has run
    at [now + 600000] or later, the time to the next spin is [0] and the
    click arms the next spin. *)
Theorem cooldown_gates_next_spin
    (JOBS : list Job) s s1 out (now rnd now' : Q) :
  spinTimeout s <> None ->
  isRouletteOpen s = true ->
  spinTimeoutFires JOBS now rnd s = Some (s1, out) ->
  (now' < now + ROULETTE_COOLDOWN ->
     0 < timeToNextSpin (updateTimer now' s1)
     /\ spinButton (updateTimer now' s1) = (updateTimer now' s1, []))
  /\ (now + ROULETTE_COOLDOWN <= now' ->
     timeToNextSpin (updateTimer now' s1) == 0
     /\ spinButton (updateTimer now' s1)
        = (armed (updateTimer now' s1), [])).
Proof.
  intros Hpending Hopen H. unfold spinTimeoutFires in H.
  destruct (spinTimeout s) as [snap|]; [|contradiction].
  destruct (calculateClickEarnings _ _); [|discriminate].
  destruct (calculateSecEarnings _ _); [|discriminate].
  destruct (randomReward rnd); [|discriminate].
  inversion H; subst; clear H. split; intros Hnow.
  - pose proof (remaining_positive now' now Hnow) as Hpos.
    split; [exact Hpos|].
    unfold spinButton, idle. simpl. rewrite Hopen.
    apply Qgt_bool_iff in Hpos. simpl in Hpos. rewrite Hpos. reflexivity.
  - pose proof (remaining_zero now' now Hnow) as Hz.
    split; [exact Hz|].
    unfold spinButton, idle, handleSpinRoulette. simpl. rewrite Hopen.
    assert (Hg : Qgt_bool (Qmax 0 (ROULETTE_COOLDOWN - (now' - now))) 0
                 = false).
    { apply Qgt_bool_false_iff. rewrite Hz. lra. }
    rewrite Hg. reflexivity.
Qed.

Lemma cooldown_gates_next_spin_witness :
  (0 < timeToNextSpin (updateTimer 603999 (paid 4000 120 spinning))
   /\ spinButton (updateTimer 603999 (paid 4000 120 spinning))
      = (updateTimer 603999 (paid 4000 120 spinning), []))
  /\ (timeToNextSpin (updateTimer 604000 (paid 4000 120 spinning)) == 0
      /\ spinButton (updateTimer 604000 (paid 4000 120 spinning))
         = (armed (updateTimer 604000 (paid 4000 120 spinning)), [])).
Proof.
  assert (Hfire : spinTimeoutFires sampleJobs 4000 (1 # 2) spinning
                  = Some (paid 4000 120 spinning, [RouletteWin]))
    by reflexivity.
  assert (Hpending : spinTimeout spinning <> None) by discriminate.
  split.
  - apply (proj1 (cooldown_gates_next_spin sampleJobs spinning _ _
                    4000 (1 # 2) 603999 Hpending eq_refl Hfire)).
    unfold ROULETTE_COOLDOWN. lra.
  - apply (proj2 (cooldown_gates_next_spin sampleJobs spinning _ _
                    4000 (1 # 2) 604000 Hpending eq_refl Hfire)).
    unfold ROULETTE_COOLDOWN. lra.
Defined.

(** X11: [restartGame] does not cancel a spin in flight: when the timeout
    fires after the restart, the amount computed for the old player is paid
    to the fresh one, on the start screen. *)
Theorem restart_keeps_pending_spin
    (JOBS : list Job) s snap job (now rnd : Q) :
  gameState s = END ->
  spinTimeout s = Some snap ->
  currentJob JOBS snap = Some job ->
  0 <= rnd -> rnd < 1 ->
  exists m s2,
    In m rewards
    /\ run JOBS s [ClickRestart; SpinTimeout now rnd] = Some s2
    /\ gameState s2 = START
    /\ player s2
       = setLastSpinTime now
           (credit ((clickEarnings job (purchasedUpgrades snap) * 20
                     + perSecondEarnings job (purchasedUpgrades snap) * 100)
                    * m) freshPlayer)
    /\ isSpinning s2 = false.
Proof.
  intros Hend Hsnap Hjob Hlo Hhi.
  destruct (randomReward_in_rewards rnd Hlo Hhi) as [m [Hm Hin]].
  exists m. eexists. split; [exact Hin|].
  split.
  - simpl. unfold dispatch at 1, renders. rewrite Hend. simpl.
    unfold dispatch, renders. simpl.
    unfold spinTimeoutFires. simpl. rewrite Hsnap.
    unfold calculateClickEarnings, calculateSecEarnings. rewrite Hjob, Hm.
    reflexivity.
  - simpl. repeat split; reflexivity.
Qed.

Lemma restart_keeps_pending_spin_witness :
  exists m s2,
    In m rewards
    /\ run sampleJobs (setGameState END spinning)
         [ClickRestart; SpinTimeout 4000 (1 # 2)] = Some s2
    /\ gameState s2 = START
    /\ player s2
       = setLastSpinTime 4000
           (credit ((clickEarnings intern [] * 20
                     + perSecondEarnings intern [] * 100) * m) freshPlayer)
    /\ isSpinning s2 = false.
Proof.
  apply (restart_keeps_pending_spin sampleJobs (setGameState END spinning)
           (withMoney 0 freshPlayer) intern 4000 (1 # 2));
    try reflexivity; lra.
Defined.

(** ** Through the buttons *)

Lemma array_get_range {A : Type} (arr : list A) (i : Z) (x : A) :
  array_get arr i = Some x -> (0 <= i < Z.of_nat (List.length arr))%Z.
Proof.
  unfold array_get. destruct (i <? 0)%Z eqn:E; [discriminate|].
  intros H. apply Z.ltb_ge in E. split; [exact E|].
  assert (Hlt : (Z.to_nat i < List.length arr)%nat)
    by (apply nth_error_Some; congruence).
  lia.
Qed.

Lemma run_step (JOBS : list Job) s e r rest :
  dispatch JOBS s e = Some r ->
  run JOBS s (e :: rest) = run JOBS (fst r) rest.
Proof. intros H. simpl. rewrite H. destruct r. reflexivity. Qed.

(** X12: promotion.  On the working screen of a job that is not the last, with
    the resign threshold met, the click on the resign button followed by the
    click on the card of the next job leads to the working screen of the
    next job, which exists, with no upgrade owned, the next job unlocked and
    [money] and [totalMoneyEarned] untouched. *)
Theorem promotion (JOBS : list Job) s job :
  gameState s = WORKING ->
  currentJob JOBS (player s) = Some job ->
  currentJobIndex (player s) <> (Z.of_nat (List.length JOBS) - 1)%Z ->
  minMoneyToResign job <= money (player s) ->
  exists s2 next,
    run JOBS s
      [ClickResign; ClickStartJob (Z.to_nat (currentJobIndex (player s) + 1))]
    = Some s2
    /\ gameState s2 = WORKING
    /\ currentJobIndex (player s2) = (currentJobIndex (player s) + 1)%Z
    /\ currentJob JOBS (player s2) = Some next
    /\ purchasedUpgrades (player s2) = []
    /\ In (currentJobIndex (player s) + 1)%Z (unlockedJobs (player s2))
    /\ money (player s2) = money (player s)
    /\ totalMoneyEarned (player s2) = totalMoneyEarned (player s).
Proof.
  intros Hwork Hjob Hlast Hmoney.
  pose proof (array_get_range JOBS _ job Hjob) as Hrange.
  set (i := currentJobIndex (player s)) in *.
  assert (Hnext : (0 <= i + 1 < Z.of_nat (List.length JOBS))%Z) by lia.
  destruct (array_get_in_range JOBS (i + 1)%Z Hnext) as [next [Hget _]].
  assert (Hnth : nth_error JOBS (Z.to_nat (i + 1)) = Some next).
  { unfold array_get in Hget.
    destruct (i + 1 <? 0)%Z; [discriminate | exact Hget]. }
  assert (Hback : Z.of_nat (Z.to_nat (i + 1)) = (i + 1)%Z) by lia.
  assert (Hstep1 : dispatch JOBS s ClickResign = Some (resign s)).
  { unfold dispatch, renders. rewrite Hwork, Hjob. simpl.
    unfold resignButton, isLastJob. fold i.
    destruct (i =? Z.of_nat (List.length JOBS) - 1)%Z eqn:El;
      [apply Z.eqb_eq in El; contradiction|].
    assert (Eg : Qgt_bool (minMoneyToResign job) (money (player s)) = false)
      by (apply Qgt_bool_false_iff; exact Hmoney).
    rewrite Eg. reflexivity. }
  assert (Hstep2 : dispatch JOBS (fst (resign s))
                     (ClickStartJob (Z.to_nat (i + 1)))
                   = Some (startJob (i + 1) (fst (resign s)))).
  { unfold dispatch, renders. simpl.
    unfold startJobButton. rewrite Hnth, Hback. simpl. fold i.
    assert (Eu : includes_Z
                   (array_from_set (unlockedJobs (player s) ++ [(i + 1)%Z]))
                   (i + 1) = true).
    { apply includes_Z_In, array_from_set_In, in_or_app. right. left.
      reflexivity. }
    rewrite Eu.
    destruct (i =? i + 1)%Z eqn:Ec; [apply Z.eqb_eq in Ec; lia|].
    reflexivity. }
  exists (fst (startJob (i + 1) (fst (resign s)))), next.
  split.
  { rewrite (run_step JOBS _ _ _ _ Hstep1).
    rewrite (run_step JOBS _ _ _ _ Hstep2). reflexivity. }
  simpl. repeat split; try reflexivity.
  - unfold currentJob. simpl. exact Hget.
  - apply array_from_set_In, in_or_app. right. left. reflexivity.
Qed.

Lemma promotion_witness :
  exists s2 next,
    run sampleJobs (atWork 100) [ClickResign; ClickStartJob 1] = Some s2
    /\ gameState s2 = WORKING
    /\ currentJobIndex (player s2) = 1%Z
    /\ currentJob sampleJobs (player s2) = Some next
    /\ purchasedUpgrades (player s2) = []
    /\ In 1%Z (unlockedJobs (player s2))
    /\ money (player s2) = money (player (atWork 100))
    /\ totalMoneyEarned (player s2) = totalMoneyEarned (player (atWork 100)).
Proof.
  apply (promotion sampleJobs (atWork 100) intern); try reflexivity.
  - simpl. lia.
  - simpl. lra.
Defined.

(** X15: no event makes the application ask for the error sound: the upgrade
    button is disabled exactly when [buyUpgrade] would refuse, so its
    refusal is never reached through the screen. *)
Theorem error_sound_is_never_requested (JOBS : list Job) s e s' out :
  dispatch JOBS s e = Some (s', out) -> ~ In ErrorSound out.
Proof.
  unfold dispatch. intros H.
  destruct (negb (renders JOBS s)); [discriminate|].
  destruct e.
  1-10: destruct (gameState s) eqn:G; simpl in H.
  all: open_step H; simpl; try (intuition discriminate).
  all: exfalso;
    match goal with
    | H1 : ?a || negb ?b = false, H2 : ?b && negb ?a = false |- _ =>
        destruct a, b; simpl in *; discriminate
    end.
Qed.

Lemma error_sound_is_never_requested_witness :
  ~ In ErrorSound [PurchaseSound]
  /\ dispatch sampleJobs (atWork 10) (ClickUpgrade 1)
     = Some (atWork 10, [])
  /\ buyUpgrade macro (atWork 10) = (atWork 10, [ErrorSound]).
Proof.
  split; [|split; reflexivity].
  apply (error_sound_is_never_requested sampleJobs (atWork 10)
           (ClickUpgrade 0) (fst (buyUpgrade coffee (atWork 10)))).
  reflexivity.
Defined.

(** ** Saving and loading *)

Lemma loadedSpinTime_same t : loadedSpinTime t == t.
Proof.
  unfold loadedSpinTime. destruct (Qeq_bool t 0) eqn:E; [|reflexivity].
  apply Qeq_bool_iff in E. rewrite E. reflexivity.
Qed.

(** X16: what was saved is loaded back.  When the stored text parses to the
    object of a player, the initializer returns that player: [money],
    [totalMoneyEarned], [currentJobIndex], [purchasedUpgrades] and
    [unlockedJobs] as they were, and [lastSpinTime] equal as a number. *)
Theorem save_load_round_trip
    (parse : string -> Completion JSValue) (text : string)
    (p : PlayerState) :
  text <> ""%string ->
  parse text = Normal (JObj (playerObject p)) ->
  exists p',
    asPlayerState (loadPlayer parse (Some text)) = Some p'
    /\ money p' = money p
    /\ totalMoneyEarned p' = totalMoneyEarned p
    /\ currentJobIndex p' = currentJobIndex p
    /\ purchasedUpgrades p' = purchasedUpgrades p
    /\ unlockedJobs p' = unlockedJobs p
    /\ lastSpinTime p' == lastSpinTime p.
Proof.
  intros Hne Hp.
  exists (setLastSpinTime (loadedSpinTime (lastSpinTime p)) p).
  split; [apply loadPlayer_stored; assumption|].
  simpl. repeat split; try reflexivity. apply loadedSpinTime_same.
Qed.

Lemma save_load_round_trip_witness :
  exists p',
    asPlayerState
      (loadPlayer (fun _ => Normal (JObj (playerObject veteran)))
         (Some "saved"%string)) = Some p'
    /\ money p' = money veteran
    /\ totalMoneyEarned p' = totalMoneyEarned veteran
    /\ currentJobIndex p' = currentJobIndex veteran
    /\ purchasedUpgrades p' = purchasedUpgrades veteran
    /\ unlockedJobs p' = unlockedJobs veteran
    /\ lastSpinTime p' == lastSpinTime veteran.
Proof.
  apply (save_load_round_trip
           (fun _ => Normal (JObj (playerObject veteran)))
           "saved"%string veteran).
  - discriminate.
  - reflexivity.
Defined.

(** X17: whatever is stored, the loaded object has a [lastSpinTime], and it
    is either truthy or the number [0].  When the stored text parses to an
    object, a truthy [lastSpinTime] of that object is kept as it is, a falsy
    or missing one becomes [0], and every other property is kept. *)
Theorem loaded_object_has_spin_time
    (parse : string -> Completion JSValue) (saved : option string) :
  (exists v,
     get_prop "lastSpinTime" (loadPlayer parse saved) = Some v
     /\ (truthy v = true \/ v = JNum 0))
  /\ (forall text fields,
        saved = Some text -> text <> ""%string ->
        parse text = Normal (JObj fields) ->
        get_prop "lastSpinTime" (loadPlayer parse saved)
        = Some (or_else (get_prop "lastSpinTime" fields) (JNum 0))
        /\ forall key, key <> "lastSpinTime"%string ->
             get_prop key (loadPlayer parse saved) = get_prop key fields).
Proof.
  assert (Hor : forall m, truthy (or_else m (JNum 0)) = true
                          \/ or_else m (JNum 0) = JNum 0).
  { intros [v|]; simpl; [|right; reflexivity].
    destruct (truthy v) eqn:E; [left; exact E | right; reflexivity]. }
  split.
  - assert (Hfresh : exists v,
              get_prop "lastSpinTime" freshObject = Some v
              /\ (truthy v = true \/ v = JNum 0)).
    { exists (JNum 0). split; [reflexivity | right; reflexivity]. }
    destruct saved as [text|]; simpl; [|exact Hfresh].
    destruct (String.eqb text ""); [exact Hfresh|].
    unfold loadTry. destruct (parse text) as [v|e]; [|exact Hfresh].
    destruct (get_member v "lastSpinTime") as [m|e]; [|exact Hfresh].
    exists (or_else m (JNum 0)). split; [apply get_set_prop_same | apply Hor].
  - intros text fields Hs Hne Hp. subst saved.
    rewrite (loadPlayer_parsed parse text _ Hne Hp). simpl. split.
    + apply get_set_prop_same.
    + intros key Hk. apply get_set_prop_other. exact Hk.
Qed.

(** ** The mute preference *)

(** X18: the mute flag survives a reload: what the effect stores is read
    back as the same flag; no stored value and every stored text other than
    [true] give an unmuted start. *)
Theorem mute_round_trip (isMuted : bool) (text : string) :
  loadMuted (Some (storeMuted isMuted)) = isMuted
  /\ loadMuted None = false
  /\ (text <> "true"%string -> loadMuted (Some text) = false).
Proof.
  split; [destruct isMuted; reflexivity|]. split; [reflexivity|].
  intros H. simpl. apply String.eqb_neq. exact H.
Qed.

Lemma mute_round_trip_witness :
  loadMuted (Some (storeMuted true)) = true
  /\ loadMuted None = false
  /\ loadMuted (Some "TRUE"%string) = false.
Proof.
  destruct (mute_round_trip true "TRUE") as [H1 [H2 H3]].
  split; [exact H1|]. split; [exact H2|]. apply H3. discriminate.
Defined.

(** ** Sound *)

Lemma scheduleNotes_nth now type duration volume freqs : forall i k note,
  nth_error (scheduleNotes now type duration volume i freqs) k = Some note ->
  nth_error freqs k = Some (noteFrequency note)
  /\ noteType note = type
  /\ noteVolume note = volume
  /\ noteStart note == now + inject_Z (Z.of_nat (i + k)) * duration
  /\ noteStop note == now + inject_Z (Z.of_nat (i + k + 1)) * duration.
Proof.
  induction freqs as [|f freqs IH]; intros i k note H.
  - destruct k; discriminate.
  - destruct k as [|k]; simpl in H.
    + inversion H; subst; clear H. simpl.
      rewrite Nat.add_0_r.
      repeat split; try reflexivity.
      rewrite Nat2Z.inj_add, inject_Z_plus. simpl. ring.
    + destruct (IH (S i) k note H) as [Hf [Ht [Hv [Hs He]]]].
      simpl. repeat split; try assumption.
      * rewrite Hs. replace (S i + k)%nat with (i + S k)%nat by lia.
        reflexivity.
      * rewrite He. replace (S i + k + 1)%nat with (i + S k + 1)%nat by lia.
        reflexivity.
Qed.

Lemma scheduleNotes_length now type duration volume freqs : forall i,
  List.length (scheduleNotes now type duration volume i freqs)
  = List.length freqs.
Proof.
  induction freqs as [|f freqs IH]; intros i; simpl; [|rewrite IH];
    reflexivity.
Qed.

(** X19: a muted [playSound] schedules nothing.  Unmuted, it schedules one
    note per frequency, in order, with the given wave form and volume; the
    note of index [k] sounds from [now + k * duration] to
    [now + (k + 1) * duration], so the notes follow one another without a
    gap and without overlap. *)
Theorem playSound_schedule
    (now : Q) (freqs : list Q) (type : OscillatorType)
    (duration volume : Q) :
  playSound true now freqs type duration volume = []
  /\ List.length (playSound false now freqs type duration volume)
     = List.length freqs
  /\ (forall k note,
        nth_error (playSound false now freqs type duration volume) k
          = Some note ->
        nth_error freqs k = Some (noteFrequency note)
        /\ noteType note = type
        /\ noteVolume note = volume
        /\ noteStart note == now + inject_Z (Z.of_nat k) * duration
        /\ noteStop note == now + inject_Z (Z.of_nat (k + 1)) * duration)
  /\ (forall k note next,
        nth_error (playSound false now freqs type duration volume) k
          = Some note ->
        nth_error (playSound false now freqs type duration volume) (S k)
          = Some next ->
        noteStart next == noteStop note).
Proof.
  split; [reflexivity|]. split; [apply scheduleNotes_length|].
  split.
  - intros k note H. apply (scheduleNotes_nth _ _ _ _ _ 0%nat k note H).
  - intros k note next H1 H2.
    destruct (scheduleNotes_nth _ _ _ _ _ 0%nat k note H1)
      as [_ [_ [_ [_ He]]]].
    destruct (scheduleNotes_nth _ _ _ _ _ 0%nat (S k) next H2)
      as [_ [_ [_ [Hs _]]]].
    rewrite Hs, He. simpl. replace (k + 1)%nat with (S k) by lia.
    reflexivity.
Qed.

(** X20: the click that should confirm un-muting is never heard: the callback
    [toggleMute] schedules uses the [playSound] of the render in which the
    flag is still on, so whatever the flag was, toggling schedules no
    note; the flag itself is inverted. *)
Theorem toggleMute_is_silent (isMuted : bool) (later : Q) :
  fst (toggleMute isMuted later) = negb isMuted
  /\ snd (toggleMute isMuted later) = []
  /\ playClickSound (fst (toggleMute true later)) later <> [].
Proof.
  split; [reflexivity|]. split; [destruct isMuted; reflexivity|].
  simpl. discriminate.
Qed.

Lemma playSound_schedule_witness :
  exists note next,
    nth_error (playSound false 10 [440; 880] sine 0.05 0.05) 0 = Some note
    /\ nth_error (playSound false 10 [440; 880] sine 0.05 0.05) 1 = Some next
    /\ noteStart next == noteStop note.
Proof.
  eexists. eexists. split; [reflexivity|]. split; [reflexivity|].
  destruct (playSound_schedule 10 [440; 880] sine 0.05 0.05)
    as [_ [_ [_ Hnext]]].
  apply (Hnext 0%nat); reflexivity.
Defined.

Lemma loaded_object_has_spin_time_witness :
  get_prop "lastSpinTime" (loadPlayer sampleParse (Some "{}"%string))
  = Some (or_else (get_prop "lastSpinTime" []) (JNum 0))
  /\ forall key, key <> "lastSpinTime"%string ->
       get_prop key (loadPlayer sampleParse (Some "{}"%string))
       = get_prop key [].
Proof.
  destruct (loaded_object_has_spin_time sampleParse (Some "{}"%string))
    as [_ H].
  apply (H "{}"%string []); [reflexivity | discriminate | reflexivity].
Defined.

(** ** The ticking of the wheel *)

Lemma tickRuns_cleared n : forall c,
  tickRuns n {| tickCount := c; ticking := false |}
  = ({| tickCount := c; ticking := false |}, 0%nat).
Proof.
  induction n as [|n IH]; intros c; simpl; [|rewrite IH]; reflexivity.
Qed.

Lemma tickRuns_from n : forall c,
  (c <= totalTicks)%nat ->
  tickRuns n {| tickCount := c; ticking := true |}
  = ({| tickCount := Nat.min (c + n) totalTicks;
        ticking := (c + n <=? totalTicks)%nat |},
     (Nat.min (c + n) totalTicks - c)%nat).
Proof.
  induction n as [|n IH]; intros c Hc.
  - simpl. rewrite Nat.add_0_r.
    rewrite Nat.min_l by exact Hc.
    assert (E : (c <=? totalTicks)%nat = true) by (apply Nat.leb_le; exact Hc).
    rewrite E. rewrite Nat.sub_diag. reflexivity.
  - cbn [tickRuns]. unfold tickFires. cbn [ticking tickCount].
    destruct (totalTicks <=? c)%nat eqn:E.
    + apply Nat.leb_le in E. assert (c = totalTicks) by lia. subst c.
      rewrite tickRuns_cleared.
      rewrite Nat.min_r by lia.
      assert (E' : (totalTicks + S n <=? totalTicks)%nat = false)
        by (apply Nat.leb_gt; lia).
      rewrite E'. rewrite Nat.sub_diag. reflexivity.
    + apply Nat.leb_gt in E. rewrite (IH (S c)) by lia.
      replace (S c + n)%nat with (c + S n)%nat by lia.
      f_equal. lia.
Qed.

(** X21: the wheel ticks forty times.  After [n] firings of the interval that
    [handleSpinRoulette] sets, [playRouletteTick] has been called
    [min n 40] times, the counter stands at [min n 40], and the interval is
    cleared from the forty-first firing on. *)
Theorem wheel_ticks_forty_times (n : nat) :
  tickRuns n {| tickCount := 0; ticking := true |}
  = ({| tickCount := Nat.min n 40; ticking := (n <=? 40)%nat |},
     Nat.min n 40).
Proof.
  rewrite (tickRuns_from n 0%nat) by (unfold totalTicks; lia).
  simpl. rewrite Nat.sub_0_r. reflexivity.
Qed.

(** ** The floating amounts *)

Lemma filter_ids_NoDup (keep : Particle -> bool) l :
  NoDup (map particleId l) -> NoDup (map particleId (filter keep l)).
Proof.
  induction l as [|p l IH]; simpl; intros H; [constructor|].
  inversion H as [|x xs Hnotin Hnd]; subst.
  destruct (keep p); simpl; [|apply IH, Hnd].
  constructor; [|apply IH, Hnd].
  intros Hin. apply Hnotin. apply in_map_iff in Hin.
  destruct Hin as [q [Hq Hqin]]. apply filter_In in Hqin.
  apply in_map_iff. exists q. tauto.
Qed.

Lemma particleStep_ok st e :
  particles_ok st -> particles_ok (particleStep st e).
Proof.
  intros [Hnd Hlt]. destruct e as [x y val | id]; simpl.
  - split; simpl.
    + rewrite map_app. simpl.
      apply NoDup_app; [exact Hnd | repeat constructor; simpl; tauto |].
      intros i Hi [E|[]]. subst i. apply in_map_iff in Hi.
      destruct Hi as [q [Hq Hqin]]. apply Hlt in Hqin. lia.
    + intros p Hp. apply in_app_or in Hp. destruct Hp as [Hp|[Hp|[]]].
      * apply Hlt in Hp. lia.
      * subst p. simpl. lia.
  - split; simpl.
    + apply filter_ids_NoDup. exact Hnd.
    + intros p Hp. apply filter_In in Hp. apply Hlt. tauto.
Qed.

Lemma particles_run_ok events : forall st,
  particles_ok st -> particles_ok (fold_left particleStep events st).
Proof.
  induction events as [|e events IH]; intros st H; simpl; [exact H|].
  apply IH, particleStep_ok, H.
Qed.

Lemma expire_removes_one l : forall p,
  NoDup (map particleId l) -> In p l ->
  List.length l
  = S (List.length
         (filter (fun q => negb (particleId q =? particleId p)%nat) l)).
Proof.
  induction l as [|q l IH]; intros p Hnd Hin; [contradiction|].
  simpl in Hnd. inversion Hnd as [|x xs Hnotin Hnd']; subst.
  simpl. destruct Hin as [E|Hin].
  - subst q. rewrite Nat.eqb_refl. simpl. f_equal.
    symmetry. f_equal. apply forallb_filter_id. apply forallb_forall.
    intros r Hr. apply negb_true_iff, Nat.eqb_neq. intros Eid.
    apply Hnotin. rewrite <- Eid. apply in_map. exact Hr.
  - destruct (particleId q =? particleId p)%nat eqn:E; simpl.
    + apply Nat.eqb_eq in E. exfalso. apply Hnotin. rewrite E.
      apply in_map. exact Hin.
    + f_equal. apply IH; assumption.
Qed.

(** X22: the floating amounts.  Whatever was spawned and has expired, the
    particles on the screen have pairwise different ids, all below the
    counter; the timeout of a particle that is on the screen removes that
    particle and no other. *)
Theorem particles_expire_one_by_one (events : list ParticleEvent) :
  let st := fold_left particleStep events noParticles in
  NoDup (map particleId (clickParticles st))
  /\ (forall p, In p (clickParticles st) ->
        (particleId p < particleIdRef st)%nat)
  /\ (forall p, In p (clickParticles st) ->
        let st' := expireParticle (particleId p) st in
        ~ In p (clickParticles st')
        /\ (forall q, In q (clickParticles st) -> q <> p ->
              In q (clickParticles st'))
        /\ List.length (clickParticles st)
           = S (List.length (clickParticles st'))).
Proof.
  intros st.
  assert (Hok : particles_ok st).
  { apply particles_run_ok. split; [constructor | intros p []]. }
  destruct Hok as [Hnd Hlt].
  split; [exact Hnd|]. split; [exact Hlt|].
  intros p Hp st'. unfold st', expireParticle. simpl.
  split; [|split].
  - intros Hin. apply filter_In in Hin. destruct Hin as [_ Hin].
    rewrite Nat.eqb_refl in Hin. discriminate.
  - intros q Hq Hne. apply filter_In. split; [exact Hq|].
    apply negb_true_iff, Nat.eqb_neq. intros Eid. apply Hne.
    clear -Hnd Hp Hq Eid.
    induction (clickParticles st) as [|r l IH]; [contradiction|].
    simpl in Hnd. inversion Hnd as [|x xs Hnotin Hnd']; subst.
    destruct Hp as [Ep|Hp]; destruct Hq as [Eq|Hq]; subst.
    + reflexivity.
    + exfalso. apply Hnotin. rewrite <- Eid. apply in_map. exact Hq.
    + exfalso. apply Hnotin. rewrite Eid. apply in_map. exact Hp.
    + apply IH; assumption.
  - apply expire_removes_one; assumption.
Qed.

Lemma particles_expire_one_by_one_witness :
  List.length
    (clickParticles
       (fold_left particleStep
          [Spawn 1 2 "+1"; Spawn 3 4 "+1"; Spawn 5 6 "+120"] noParticles))
  = S (List.length
         (clickParticles
            (expireParticle 1
               (fold_left particleStep
                  [Spawn 1 2 "+1"; Spawn 3 4 "+1"; Spawn 5 6 "+120"]
                  noParticles)))).
Proof.
  destruct (particles_expire_one_by_one
              [Spawn 1 2 "+1"; Spawn 3 4 "+1"; Spawn 5 6 "+120"])
    as [_ [_ H]].
  apply (H {| particleId := 1; particleX := 3; particleY := 4;
              particleVal := "+1" |}).
  simpl. right. left. reflexivity.
Defined.

(** ** Unlocking *)


